(** * Grammar-analysis demo: the span renderer, normalizer, grouping and statistics

    A shallow embedding of [grammar_analyzer.py].  Python values are modelled
    as follows.

    - [str] is [string]; one element of the string stands for one character
      of the Python string, so [len] and slicing count elements.  Literals
      holding non-ASCII text (dictionary keys, tooltip labels) are only ever
      compared or concatenated, never measured or sliced.
    - [int] is [Z]; [None] in an offset slot is [option Z].
    - the record dict built by [format_extractions] is the record
      [extraction]; its attribute dict is an association list, because
      [create_colored_text] iterates over it in insertion order.
    - [dict]s used as plain maps (the colour tables, the grouping result,
      the per-class counters) are [gmap]s. *)

From Stdlib Require Import ZArith Ascii String DecimalString.
From stdpp Require Import base gmap strings list sorting.

Local Open Scope Z_scope.

(** ** Python strings *)

Module PyStr.

Definition len (s : string) : Z := Z.of_nat (String.length s).

Fixpoint drop (n : nat) (s : string) : string :=
  match n, s with
  | O, _ => s
  | S _, EmptyString => EmptyString
  | S n', String _ s' => drop n' s'
  end.

Fixpoint take (n : nat) (s : string) : string :=
  match n, s with
  | O, _ => EmptyString
  | S _, EmptyString => EmptyString
  | S n', String c s' => String c (take n' s')
  end.

(** How Python turns a slice bound into an index of [0 .. n]: a
    negative bound counts from the end, and everything is clamped. *)
Definition clamp (i n : Z) : Z :=
  if i <? 0 then Z.max (i + n) 0 else Z.min i n.

(** [s[lo:hi]] *)
Definition slice (s : string) (lo hi : Z) : string :=
  let n := len s in
  let lo' := clamp lo n in
  let hi' := clamp hi n in
  take (Z.to_nat (hi' - lo')) (drop (Z.to_nat lo') s).

(** [s[lo:]] *)
Definition slice_from (s : string) (lo : Z) : string :=
  drop (Z.to_nat (clamp lo (len s))) s.

(** [''.join(parts)] *)
Definition join_empty (parts : list string) : string :=
  foldr String.append EmptyString parts.

(** [sep.join(parts)] *)
Fixpoint join (sep : string) (parts : list string) : string :=
  match parts with
  | [] => EmptyString
  | [p] => p
  | p :: ps => p +:+ sep +:+ join sep ps
  end.

(** [str(i)] for an [int]. *)
Definition of_int (i : Z) : string := NilZero.string_of_int (Z.to_int i).

(** The double quote, as a one-character string. *)
Definition dquote : string := String "034"%char EmptyString.

End PyStr.

(** ** Data model *)

(** The value stored under the key 位置 of a record: the two offsets,
    either of which may be [None]. *)
Record position := Position {
  pos_start : option Z;   (* 开始 *)
  pos_end : option Z      (* 结束 *)
}.

(** One record of the list returned by [format_extractions], in the
    case that its attributes are a mapping; [Nullable.record] below is
    the record that may have [None] under 属性. *)
Record extraction := Extraction_record {
  ext_type : string;                    (* 类型 *)
  ext_text : string;                    (* 文本 *)
  ext_attrs : list (string * string);   (* 属性 *)
  ext_pos : position                    (* 位置 *)
}.

(** [attrs.get(k)]: the value bound to [k], if [k in attrs]. *)
Fixpoint attrs_get (k : string) (attrs : list (string * string)) : option string :=
  match attrs with
  | [] => None
  | (k', v) :: rest => if String.eqb k k' then Some v else attrs_get k rest
  end.

(** What the extraction service returns: the data classes of the
    [langextract] library, with the fields that the program reads.  The
    character interval of an extraction is optional.  The attributes
    are taken to be a mapping and the two offsets of an interval to be
    integers here; [Nullable] below has the data classes in which each
    of them may be [None]. *)
Record CharInterval := { start_pos : Z; end_pos : Z }.

Record Extraction := {
  extraction_class : string;
  extraction_text : string;
  attributes : list (string * string);
  char_interval : option CharInterval
}.

Record AnnotatedDocument := {
  text : string;
  extractions : list Extraction
}.

(** ** Stable sorting by an integer key

    [sorted(l, key=f)] is stable: records with equal keys keep their
    relative order.  Insertion from the right, placing a record before
    the first one whose key is not smaller, computes that order. *)

Section StableSort.
Context {A : Type} (key : A -> Z).

Fixpoint insert_by (x : A) (l : list A) : list A :=
  match l with
  | [] => [x]
  | y :: l' => if key x <=? key y then x :: l else y :: insert_by x l'
  end.

Definition sorted (l : list A) : list A := foldr insert_by [] l.

End StableSort.

(** ** The inline renderer, [create_colored_text]

    The module binds this name twice; the second definition, the
    renderer, is the one in effect after import (the first has the body
    of [format_result_for_display]). *)

Import PyStr.

(** The table used when [color_map] is [None]. *)
Definition default_color_map : gmap string string :=
  list_to_map
    [ ("subject", "#FF6B6B"); ("verb", "#4ECDC4"); ("object", "#45B7D1");
      ("direct_object", "#45B7D1"); ("indirect_object", "#95D5B2");
      ("adverbial", "#FFA07A"); ("phrasal_verb", "#98D8C8");
      ("key_word", "#F7DC6F"); ("idiom", "#DDA15E");
      ("attributive", "#BC6C25"); ("complement", "#A8DADC") ].

(** A record that passed the not-[None] test of a filter, with the two
    offsets that the later code reads from it. *)
Record span := Span {
  span_start : Z;
  span_end : Z;
  span_ext : extraction
}.

Definition offsets (e : extraction) : option (Z * Z) :=
  match pos_start (ext_pos e), pos_end (ext_pos e) with
  | Some s, Some t => Some (s, t)
  | _, _ => None
  end.

(** The condition of the list comprehension that builds
    [valid_extractions] in [create_colored_text]. *)
Definition colored_valid (e : extraction) : option span :=
  match offsets e with
  | Some (s, t) => if (0 <=? s) && (s <? t) then Some (Span s t e) else None
  | None => None
  end.

(** One element of [html_parts]: a slice of the text appended as it is,
    or the markup appended for one record. *)
Inductive fragment :=
| Plain (s : string)
| Highlight (e : extraction) (color : string) (body : string) (tooltip_html : string).

Definition base_text (f : fragment) : string :=
  match f with
  | Plain s => s
  | Highlight _ _ body _ => body
  end.

Definition tooltip_attr_line (kv : string * string) : string :=
  "<div><span style='opacity:0.8'>" +:+ kv.1 +:+ ":</span> " +:+ kv.2 +:+ "</div>".

Definition colored_tooltip_html (e : extraction) : string :=
  let tooltip_lines := ["<strong>" +:+ ext_type e +:+ "</strong>"] in
  let tooltip_lines :=
    match ext_attrs e with
    | [] => tooltip_lines
    | _ :: _ =>
        (tooltip_lines ++
         ["<hr style='margin: 5px 0; border: 0; border-top: 1px solid rgba(255,255,255,0.3);'>"])
        ++ map tooltip_attr_line (ext_attrs e)
    end in
  join_empty tooltip_lines.

(** The string appended to [html_parts] for a fragment. *)
Definition render_fragment (f : fragment) : string :=
  match f with
  | Plain s => s
  | Highlight _ color body tooltip_html =>
      "<span class=" +:+ dquote +:+ "tooltip-wrapper" +:+ dquote +:+
      " style=" +:+ dquote +:+ "background-color: " +:+ color +:+ "; " +:+
      "padding: 2px 4px; border-radius: 3px;" +:+ dquote +:+ ">" +:+
      body +:+
      "<span class=" +:+ dquote +:+ "tooltip-text" +:+ dquote +:+ ">" +:+
      tooltip_html +:+ "</span>" +:+
      "</span>"
  end.

(** The loop state: [html_parts] and the cursor [last_pos]. *)
Definition loop_state : Type := list fragment * Z.

(** One iteration of the loop over [sorted_extractions]. *)
Definition colored_step (text : string) (color_map : gmap string string)
    (st : loop_state) (sp : span) : loop_state :=
  let '(html_parts, last_pos) := st in
  let start := span_start sp in
  let end_ := span_end sp in
  if (len text <=? start) || (len text <? end_) || (end_ <=? start) then st
  else
    let html_parts :=
      if last_pos <? start
      then html_parts ++ [Plain (slice text last_pos start)]
      else html_parts in
    let color := default "#CCCCCC" (color_map !! ext_type (span_ext sp)) in
    let tooltip_html := colored_tooltip_html (span_ext sp) in
    (html_parts ++ [Highlight (span_ext sp) color (slice text start end_) tooltip_html],
     Z.max last_pos end_).

(** [html_parts] at the [return]; the early [return text] is the single
    plain fragment [text]. *)
Definition colored_parts (text : string) (extractions : list extraction)
    (color_map : option (gmap string string)) : list fragment :=
  let color_map := default default_color_map color_map in
  let valid_extractions := omap colored_valid extractions in
  match valid_extractions with
  | [] => [Plain text]
  | _ :: _ =>
      let sorted_extractions := sorted span_start valid_extractions in
      let '(html_parts, last_pos) :=
        foldl (colored_step text color_map) ([], 0) sorted_extractions in
      if last_pos <? len text
      then html_parts ++ [Plain (slice_from text last_pos)]
      else html_parts
  end.

Definition create_colored_text (text : string) (extractions : list extraction)
    (color_map : option (gmap string string)) : string :=
  join_empty (map render_fragment (colored_parts text extractions color_map)).

(** ** The standalone renderer, [create_simple_html_visualization]

    The module defines this function twice with the same body; the
    embedding covers the part of it that fills the text container:
    the filter, the sort, the loop and the tooltip.  The page header,
    the legend and the detail cards around it are fixed markup. *)

Module SimpleHtml.

Record colors := Colors { bg : string; border : string; label : string }.

Definition color_map : gmap string colors :=
  list_to_map
    [ ("subject", Colors "#FFE5E5" "#FF6B6B" "主语");
      ("verb", Colors "#E5F9F9" "#4ECDC4" "谓语");
      ("object", Colors "#E5F0FF" "#45B7D1" "宾语");
      ("direct_object", Colors "#E5F0FF" "#45B7D1" "直接宾语");
      ("indirect_object", Colors "#E8F5E9" "#95D5B2" "间接宾语");
      ("adverbial", Colors "#FFF3E0" "#FFA07A" "状语");
      ("phrasal_verb", Colors "#E8F5E9" "#98D8C8" "短语动词");
      ("key_word", Colors "#FFF9E6" "#F7DC6F" "重点词汇");
      ("idiom", Colors "#FFEEE5" "#DDA15E" "习语");
      ("attributive", Colors "#F5E6D3" "#BC6C25" "定语");
      ("complement", Colors "#E0F7FA" "#A8DADC" "补语") ].

(** The condition of the list comprehension that builds
    [valid_extractions]: [0 <= start < end <= len(text)]. *)
Definition valid (text : string) (e : extraction) : option span :=
  match offsets e with
  | Some (s, t) =>
      if (0 <=? s) && (s <? t) && (t <=? len text) then Some (Span s t e) else None
  | None => None
  end.

(** [tooltip_parts] after the three conditional appends. *)
Definition tooltip_parts (e : extraction) : list string :=
  let extraction_type := ext_type e in
  let attrs := ext_attrs e in
  let tooltip_parts := [extraction_type] in
  let tooltip_parts :=
    match attrs_get "role" attrs with
    | Some v => tooltip_parts ++ ["语法功能: " +:+ v]
    | None => tooltip_parts
    end in
  let tooltip_parts :=
    match attrs_get "meaning" attrs with
    | Some v => tooltip_parts ++ ["含义: " +:+ v]
    | None => tooltip_parts
    end in
  let tooltip_parts :=
    match attrs_get "type" attrs with
    | Some v =>
        if negb (String.eqb v extraction_type)
        then tooltip_parts ++ ["类型: " +:+ v]
        else tooltip_parts
    | None => tooltip_parts
    end in
  tooltip_parts.

Definition tooltip (e : extraction) : string := join " | " (tooltip_parts e).

(** One element appended to [html_parts] inside the text container. *)
Inductive fragment :=
| Plain (s : string)
| Highlight (i : Z) (e : extraction) (c : colors) (tooltip : string) (body : string).

Definition base_text (f : fragment) : string :=
  match f with
  | Plain s => s
  | Highlight _ _ _ _ body => body
  end.

Definition render_fragment (f : fragment) : string :=
  match f with
  | Plain s => s
  | Highlight i _ c tooltip body =>
      "<span class=" +:+ dquote +:+ "highlight" +:+ dquote +:+
      " id=" +:+ dquote +:+ "ext-" +:+ of_int i +:+ dquote +:+ " " +:+
      "style=" +:+ dquote +:+ "background: " +:+ bg c +:+
      "; border: 2px solid " +:+ border c +:+ ";" +:+ dquote +:+ " " +:+
      "title=" +:+ dquote +:+ tooltip +:+ dquote +:+ " " +:+
      "onclick=" +:+ dquote +:+ "scrollToDetail(" +:+ of_int i +:+ ")" +:+ dquote +:+ ">" +:+
      body +:+
      "</span>"
  end.

(** The loop state: [html_parts] (the part appended by the loop), the
    cursor [last_pos] and the [enumerate] counter. *)
Definition loop_state : Type := list fragment * Z * Z.

Definition step (text : string) (st : loop_state) (sp : span) : loop_state :=
  let '(html_parts, last_pos, i) := st in
  let start := span_start sp in
  let end_ := span_end sp in
  let html_parts :=
    if last_pos <? start
    then html_parts ++ [Plain (slice text last_pos start)]
    else html_parts in
  let extraction_type := ext_type (span_ext sp) in
  let c :=
    default (Colors "#e9ecef" "#adb5bd" extraction_type) (color_map !! extraction_type) in
  (html_parts ++ [Highlight i (span_ext sp) c (tooltip (span_ext sp)) (slice text start end_)],
   end_, i + 1).

(** The cursor after the loop over the sorted valid records. *)
Definition run_loop (text : string) (sorted_extractions : list span) : loop_state :=
  foldl (step text) ([], 0, 0) sorted_extractions.

(** What is appended to [html_parts] between the opening and the
    closing tag of the text container. *)
Definition text_container_parts (text : string) (extractions : list extraction)
    : list fragment :=
  let valid_extractions := omap (valid text) extractions in
  match valid_extractions with
  | _ :: _ =>
      let sorted_extractions := sorted span_start valid_extractions in
      let '(html_parts, last_pos, _) := run_loop text sorted_extractions in
      if last_pos <? len text
      then html_parts ++ [Plain (slice_from text last_pos)]
      else html_parts
  | [] => [Plain text]
  end.

End SimpleHtml.

(** ** The normalizer, [GrammarAnalyzer.format_extractions] *)

Definition format_extraction (x : Extraction) : extraction :=
  let start_pos_ :=
    match char_interval x with Some ci => start_pos ci | None => 0 end in
  let end_pos_ :=
    match char_interval x with Some ci => end_pos ci | None => 0 end in
  {| ext_type := extraction_class x;
     ext_text := extraction_text x;
     ext_attrs := attributes x;
     ext_pos := {| pos_start := Some start_pos_; pos_end := Some end_pos_ |} |}.

Definition format_extractions (result : AnnotatedDocument) : list extraction :=
  foldl (fun formatted x => formatted ++ [format_extraction x])
        [] (extractions result).

(** ** Grouping, [format_result_for_display]

    On records whose attributes are a mapping, on which [.get] is
    defined; [Nullable.group_key] below is the key of a record whose
    attributes may be [None]. *)

Definition group_key (group_by : string) (e : extraction) : string :=
  if String.eqb group_by "类型" then ext_type e
  else if String.eqb group_by "难度" then default "未知" (attrs_get "level" (ext_attrs e))
  else "全部".

Definition group_step (group_by : string) (grouped : gmap string (list extraction))
    (e : extraction) : gmap string (list extraction) :=
  let key := group_key group_by e in
  let grouped :=
    match grouped !! key with
    | None => <[key := []]> grouped
    | Some _ => grouped
    end in
  alter (fun l => l ++ [e]) key grouped.

Definition format_result_for_display (extractions : list extraction)
    (group_by : string) : gmap string (list extraction) :=
  foldl (group_step group_by) ∅ extractions.

(** ** Python floats

    A [float] is an IEEE 754 binary64.  Every finite binary64 is an
    integer multiple of [2^-1074], so a finite float is kept as its sign
    and its magnitude counted in that unit.  The operations compute the
    exact rational result and round it to the nearest representable
    magnitude, ties to even, as the hardware and CPython do. *)

Module PyFloat.

Inductive t :=
| Finite (neg : bool) (u : Z)   (* (-1)^neg * u * 2^-1074 *)
| Inf (neg : bool)
| NaN.

(** The number of units in [1.0]. *)
Definition one : Z := 2 ^ 1074.

(** The first magnitude that is too large for a binary64, [2^1024]. *)
Definition overflow_threshold : Z := 2 ^ 2098.

(** The integer nearest to [p / q], ties to even ([0 <= p], [0 < q]). *)
Definition rne_div (p q : Z) : Z :=
  let d := p / q in
  let r := p mod q in
  if 2 * r <? q then d
  else if q <? 2 * r then d + 1
  else if Z.even d then d else d + 1.

(** The spacing, as a power of two of units, of the representable
    magnitudes around [p / q]: [0] below [2^53] units, and [k] in
    [[2^(52+k), 2^(53+k))]. *)
Definition binade (p q : Z) : Z :=
  let k0 := Z.log2 p - Z.log2 q in
  if k0 <? 53 then 0
  else
    let fl := if q * 2 ^ k0 <=? p then k0 else k0 - 1 in
    Z.max 0 (fl - 52).

(** The float nearest to [(-1)^neg * p / q] units. *)
Definition round (neg : bool) (p q : Z) : t :=
  let k := binade p q in
  let u := rne_div p (q * 2 ^ k) * 2 ^ k in
  if overflow_threshold <=? u then Inf neg else Finite neg u.

(** [float(i)] for an [int] that a binary64 holds exactly. *)
Definition of_small_int (i : Z) : t := Finite (i <? 0) (Z.abs i * one).

(** [x * y] *)
Definition mul (x y : t) : t :=
  match x, y with
  | NaN, _ | _, NaN => NaN
  | Finite n1 u1, Finite n2 u2 => round (xorb n1 n2) (u1 * u2) one
  | Inf n1, Inf n2 => Inf (xorb n1 n2)
  | Inf n1, Finite n2 u | Finite n2 u, Inf n1 =>
      if u =? 0 then NaN else Inf (xorb n1 n2)
  end.

(** [format(x, '.1f')]: the decimal with one digit after the point
    nearest to the exact value of [x], ties to even. *)
Definition format_1f (x : t) : string :=
  match x with
  | Finite neg u =>
      let tenths := rne_div (10 * u) one in
      (if neg then "-" else "") +:+
      of_int (tenths / 10) +:+ "." +:+ of_int (tenths mod 10)
  | Inf neg => if neg then "-inf" else "inf"
  | NaN => "nan"
  end.

End PyFloat.

(** ** Exceptions

    The exceptions of the arithmetic; [Nullable.error] below adds the
    ones that [None] gives rise to. *)

Inductive exn := ZeroDivisionError | OverflowError.

Inductive outcome (A : Type) :=
| Ok (a : A)
| Raise (e : exn).
Arguments Ok {A} a.
Arguments Raise {A} e.

(** [a / b] on two [int]s: the correctly rounded quotient. *)
Definition int_truediv (a b : Z) : outcome PyFloat.t :=
  if b =? 0 then Raise ZeroDivisionError
  else
    match PyFloat.round (xorb (a <? 0) (b <? 0)) (Z.abs a * PyFloat.one) (Z.abs b) with
    | PyFloat.Inf _ => Raise OverflowError
    | q => Ok q
    end.

(** ** Statistics, [GrammarAnalyzer.get_statistics] *)

Record statistics := {
  stat_count : Z;                   (* 总提取数 *)
  stat_types : gmap string Z;       (* 类型统计 *)
  stat_length : Z;                  (* 原文长度 *)
  stat_coverage : string            (* 覆盖率 *)
}.

Definition count_type (type_counts : gmap string Z) (x : Extraction) : gmap string Z :=
  let extraction_type := extraction_class x in
  <[extraction_type := default 0 (type_counts !! extraction_type) + 1]> type_counts.

Definition add_chars (total_chars : Z) (e : Extraction) : Z :=
  let start := match char_interval e with Some ci => start_pos ci | None => 0 end in
  let end_ := match char_interval e with Some ci => end_pos ci | None => 0 end in
  total_chars + (end_ - start).

Definition total_chars (extractions : list Extraction) : Z :=
  foldl add_chars 0 extractions.

Definition coverage (total : Z) (text : string) : outcome string :=
  if 0 <? len text then
    match int_truediv total (len text) with
    | Ok q => Ok (PyFloat.format_1f (PyFloat.mul q (PyFloat.of_small_int 100)) +:+ "%")
    | Raise e => Raise e
    end
  else Ok "0%".

Definition get_statistics (result : AnnotatedDocument) : outcome statistics :=
  let extractions := extractions result in
  let type_counts := foldl count_type ∅ extractions in
  match coverage (total_chars extractions) (text result) with
  | Ok coverage =>
      Ok {| stat_count := Z.of_nat (length extractions);
            stat_types := type_counts;
            stat_length := len (text result);
            stat_coverage := coverage |}
  | Raise e => Raise e
  end.

(** ** The data with [None] in it

    The library leaves the attributes of an extraction and the two
    offsets of a character interval [None] when it has nothing to put
    there, and [format_extractions] copies both into the record as they
    are.  The types above are the case in which the attributes are a
    mapping and the offsets are integers; the types of this module
    admit [None], and the functions of this module are the ones of the
    source that do not cope with it. *)

Module Nullable.

(** The exceptions of the functions below: the two that [None] gives
    rise to, and the arithmetic ones of the float division. *)
Inductive error :=
| TypeError
| AttributeError
| ArithmeticError (e : exn).

#[global] Instance exn_eq_dec : EqDecision exn.
Proof. solve_decision. Defined.

#[global] Instance error_eq_dec : EqDecision error.
Proof. solve_decision. Defined.

Record CharInterval := {
  start_pos : option Z;
  end_pos : option Z
}.

Record Extraction := {
  extraction_class : string;
  extraction_text : string;
  attributes : option (list (string * string));
  char_interval : option CharInterval
}.

Record AnnotatedDocument := {
  text : string;
  extractions : list Extraction
}.

(** One record of the list returned by [format_extractions]. *)
Record record := {
  rec_type : string;                             (* 类型 *)
  rec_text : string;                             (* 文本 *)
  rec_attrs : option (list (string * string));   (* 属性 *)
  rec_pos : position                             (* 位置 *)
}.

(** [GrammarAnalyzer.format_extractions] *)
Definition format_extraction (x : Extraction) : record :=
  let start_pos_ :=
    match char_interval x with Some ci => start_pos ci | None => Some 0 end in
  let end_pos_ :=
    match char_interval x with Some ci => end_pos ci | None => Some 0 end in
  {| rec_type := extraction_class x;
     rec_text := extraction_text x;
     rec_attrs := attributes x;
     rec_pos := {| pos_start := start_pos_; pos_end := end_pos_ |} |}.

Definition format_extractions (result : AnnotatedDocument) : list record :=
  foldl (fun formatted x => formatted ++ [format_extraction x])
        [] (extractions result).

(** [GrammarAnalyzer.get_statistics] *)

Definition count_type (type_counts : gmap string Z) (x : Extraction) : gmap string Z :=
  let extraction_type := extraction_class x in
  <[extraction_type := default 0 (type_counts !! extraction_type) + 1]> type_counts.

(** [total_chars += (end - start)]; the subtraction raises [TypeError]
    when one of its operands is [None]. *)
Definition add_chars (total_chars : Z) (e : Extraction) : error + Z :=
  let start := match char_interval e with Some ci => start_pos ci | None => Some 0 end in
  let end_ := match char_interval e with Some ci => end_pos ci | None => Some 0 end in
  match end_, start with
  | Some t, Some s => inr (total_chars + (t - s))
  | _, _ => inl TypeError
  end.

Definition total_chars (extractions : list Extraction) : error + Z :=
  foldl (fun acc e =>
           match acc with
           | inr total => add_chars total e
           | inl err => inl err
           end)
        (inr 0) extractions.

Definition get_statistics (result : AnnotatedDocument) : error + statistics :=
  let extractions := extractions result in
  let type_counts := foldl count_type ∅ extractions in
  match total_chars extractions with
  | inl err => inl err
  | inr total =>
      match coverage total (text result) with
      | Ok coverage =>
          inr {| stat_count := Z.of_nat (length extractions);
                 stat_types := type_counts;
                 stat_length := len (text result);
                 stat_coverage := coverage |}
      | Raise e => inl (ArithmeticError e)
      end
  end.

(** [format_result_for_display]; [extraction["属性"].get] raises
    [AttributeError] when the attributes are [None]. *)

Definition group_key (group_by : string) (r : record) : error + string :=
  if String.eqb group_by "类型" then inr (rec_type r)
  else if String.eqb group_by "难度" then
    match rec_attrs r with
    | Some attrs => inr (default "未知" (attrs_get "level" attrs))
    | None => inl AttributeError
    end
  else inr "全部".

Definition group_step (group_by : string) (grouped : gmap string (list record))
    (r : record) : error + gmap string (list record) :=
  match group_key group_by r with
  | inl err => inl err
  | inr key =>
      let grouped :=
        match grouped !! key with
        | None => <[key := []]> grouped
        | Some _ => grouped
        end in
      inr (alter (fun l => l ++ [r]) key grouped)
  end.

Definition format_result_for_display (extractions : list record)
    (group_by : string) : error + gmap string (list record) :=
  foldl (fun acc r =>
           match acc with
           | inr grouped => group_step group_by grouped r
           | inl err => inl err
           end)
        (inr ∅) extractions.

(** An extraction whose interval, if it has one, has two integer
    offsets. *)
Definition integer_offsets (x : Extraction) : bool :=
  match char_interval x with
  | Some ci => bool_decide (is_Some (start_pos ci)) && bool_decide (is_Some (end_pos ci))
  | None => true
  end.

(** The length [end - start] of the interval of an extraction, whatever
    the two integers are; an extraction without an interval has none. *)
Definition interval_length (x : Extraction) : option Z :=
  match char_interval x with
  | Some ci =>
      match end_pos ci, start_pos ci with
      | Some t, Some s => Some (t - s)
      | _, _ => None
      end
  | None => None
  end.

Definition interval_chars (extractions : list Extraction) : Z :=
  foldr Z.add 0 (omap interval_length extractions).

End Nullable.

(** The data without [None], as data of the module above. *)

Definition nullable_interval (ci : CharInterval) : Nullable.CharInterval :=
  {| Nullable.start_pos := Some (start_pos ci);
     Nullable.end_pos := Some (end_pos ci) |}.

Definition nullable_extraction (x : Extraction) : Nullable.Extraction :=
  {| Nullable.extraction_class := extraction_class x;
     Nullable.extraction_text := extraction_text x;
     Nullable.attributes := Some (attributes x);
     Nullable.char_interval := nullable_interval <$> char_interval x |}.

Definition nullable_document (d : AnnotatedDocument) : Nullable.AnnotatedDocument :=
  {| Nullable.text := text d;
     Nullable.extractions := map nullable_extraction (extractions d) |}.

Definition nullable_record (e : extraction) : Nullable.record :=
  {| Nullable.rec_type := ext_type e;
     Nullable.rec_text := ext_text e;
     Nullable.rec_attrs := Some (ext_attrs e);
     Nullable.rec_pos := ext_pos e |}.

Definition nullable_outcome {A : Type} (o : outcome A) : Nullable.error + A :=
  match o with
  | Ok a => inr a
  | Raise e => inl (Nullable.ArithmeticError e)
  end.

(** ** The statements of the specification

    Definitions that follow the words of the specification, to be
    compared with the functions above. *)

Module Spec.

(** A span is valid when [0 <= start < end <= len(text)], both offsets
    being integers. *)
Definition valid_span (text : string) (e : extraction) : bool :=
  match pos_start (ext_pos e), pos_end (ext_pos e) with
  | Some s, Some t => (0 <=? s) && (s <? t) && (t <=? len text)
  | _, _ => false
  end.

(** The length of a span with valid offsets, [0 <= start < end <=
    len(text)]; a span without such offsets has none. *)
Definition valid_length (text : string) (x : Nullable.Extraction) : option Z :=
  match Nullable.char_interval x with
  | Some ci =>
      match Nullable.start_pos ci, Nullable.end_pos ci with
      | Some s, Some t =>
          if (0 <=? s) && (s <? t) && (t <=? len text) then Some (t - s) else None
      | _, _ => None
      end
  | None => None
  end.

(** The sum of [end - start] over the spans with valid offsets. *)
Definition valid_covered_chars (text : string)
    (extractions : list Nullable.Extraction) : Z :=
  foldr Z.add 0 (omap (valid_length text) extractions).

(** A number of tenths written as a decimal with one digit after the
    point, followed by the percent sign. *)
Definition percent_of_tenths (neg : bool) (tenths : Z) : string :=
  (if neg then "-" else "") +:+
  of_int (tenths / 10) +:+ "." +:+ of_int (tenths mod 10) +:+ "%".

(** The records of a group, in input order. *)
Definition group (group_by : string) (key : string) (extractions : list extraction)
    : list extraction :=
  filter (fun e => group_key group_by e = key) extractions.

(** An optional tooltip line: the label and the attribute value when the
    attribute is present. *)
Definition line (label : string) (v : option string) : list string :=
  match v with
  | Some v => [label +:+ v]
  | None => []
  end.

(** The tooltip: the class tag, then the role, meaning and type lines,
    the last only for a type that differs from the class tag. *)
Definition tooltip_lines (e : extraction) : list string :=
  [ext_type e]
  ++ line "语法功能: " (attrs_get "role" (ext_attrs e))
  ++ line "含义: " (attrs_get "meaning" (ext_attrs e))
  ++ line "类型: "
       (match attrs_get "type" (ext_attrs e) with
        | Some v => if decide (v = ext_type e) then None else Some v
        | None => None
        end).

(** Escaping for markup, as [html.escape] does it. *)
Definition escape_char (c : ascii) : string :=
  if Ascii.eqb c "&" then "&amp;"
  else if Ascii.eqb c "<" then "&lt;"
  else if Ascii.eqb c ">" then "&gt;"
  else if Ascii.eqb c "034" then "&quot;"
  else if Ascii.eqb c "'" then "&#x27;"
  else String c EmptyString.

Fixpoint escape (s : string) : string :=
  match s with
  | EmptyString => EmptyString
  | String c s' => escape_char c +:+ escape s'
  end.

(** [needle] occurs in [s]. *)
Definition occurs_in (needle s : string) : Prop :=
  exists pre post, s = pre +:+ needle +:+ post.

End Spec.

(** ** Sample data

    The document of [get_combined_examples] in [examples.py], in which
    the same words are annotated from two angles. *)

Module Examples.

Definition combined_text : string :=
  "The talented student looked up the difficult vocabulary in the dictionary.".

Definition combined : AnnotatedDocument :=
  {| text := combined_text;
     extractions :=
       [ {| extraction_class := "subject";
            extraction_text := "The talented student";
            attributes := [("type", "noun_phrase"); ("role", "主语")];
            char_interval := Some {| start_pos := 0; end_pos := 20 |} |};
         {| extraction_class := "verb";
            extraction_text := "looked up";
            attributes := [("type", "phrasal_verb"); ("role", "谓语")];
            char_interval := Some {| start_pos := 21; end_pos := 30 |} |};
         {| extraction_class := "object";
            extraction_text := "the difficult vocabulary";
            attributes := [("type", "noun_phrase"); ("role", "宾语")];
            char_interval := Some {| start_pos := 31; end_pos := 55 |} |};
         {| extraction_class := "phrasal_verb";
            extraction_text := "looked up";
            attributes := [("type", "短语动词"); ("meaning", "查阅"); ("level", "基础")];
            char_interval := Some {| start_pos := 21; end_pos := 30 |} |};
         {| extraction_class := "key_word";
            extraction_text := "vocabulary";
            attributes :=
              [("level", "中级"); ("type", "名词"); ("meaning", "词汇"); ("importance", "高")];
            char_interval := Some {| start_pos := 45; end_pos := 55 |} |} ] |}.

(** A record with the given class and offsets. *)
Definition mk (cls : string) (s t : Z) : extraction :=
  {| ext_type := cls; ext_text := EmptyString; ext_attrs := [];
     ext_pos := {| pos_start := Some s; pos_end := Some t |} |}.

(** The two annotations of the words at [21 .. 30]. *)
Definition looked_up_twice : list extraction :=
  [mk "verb" 21 30; mk "phrasal_verb" 21 30].

(** An extraction with an interval of the given offsets. *)
Definition mk_span (start_pos end_pos : option Z) : Nullable.Extraction :=
  {| Nullable.extraction_class := "verb";
     Nullable.extraction_text := "looked up";
     Nullable.attributes := Some [("role", "谓语")];
     Nullable.char_interval :=
       Some {| Nullable.start_pos := start_pos; Nullable.end_pos := end_pos |} |}.

(** A text of ten characters with one span whose end is before its
    start, one with a span that ends after the text, one with a span
    whose offsets are [None]. *)
Definition reversed_span : Nullable.AnnotatedDocument :=
  {| Nullable.text := "0123456789";
     Nullable.extractions := [mk_span (Some 5) (Some 2)] |}.

Definition overlong_span : Nullable.AnnotatedDocument :=
  {| Nullable.text := "0123456789";
     Nullable.extractions := [mk_span (Some 0) (Some 20)] |}.

Definition span_without_offsets : Nullable.AnnotatedDocument :=
  {| Nullable.text := "0123456789";
     Nullable.extractions := [mk_span None None] |}.

Definition half_covered : Nullable.AnnotatedDocument :=
  {| Nullable.text := "0123456789";
     Nullable.extractions := [mk_span (Some 0) (Some 5)] |}.

(** A document with one extraction that has no attributes. *)
Definition no_attributes : Nullable.AnnotatedDocument :=
  {| Nullable.text := "Go home";
     Nullable.extractions :=
       [ {| Nullable.extraction_class := "verb";
            Nullable.extraction_text := "Go";
            Nullable.attributes := None;
            Nullable.char_interval :=
              Some {| Nullable.start_pos := Some 0; Nullable.end_pos := Some 2 |} |} ] |}.

End Examples.

(** ** Reading the renderer's output *)

(** The record a highlighted fragment was emitted for. *)
Definition highlighted (f : fragment) : option extraction :=
  match f with
  | Highlight e _ _ _ => Some e
  | Plain _ => None
  end.

(** The base text of the output: the text content of the fragments,
    one after the other, markup left out. *)
Definition base_of (parts : list fragment) : string :=
  join_empty (map base_text parts).

(** The spans that get past the [continue] at the head of the loop body
    of [create_colored_text]. *)
Definition renderable (text : string) (sp : span) : bool :=
  negb ((len text <=? span_start sp) || (len text <? span_end sp)
        || (span_end sp <=? span_start sp)).

(** The record a highlighted fragment of the standalone renderer was
    emitted for. *)
Definition simple_highlighted (f : SimpleHtml.fragment) : option extraction :=
  match f with
  | SimpleHtml.Highlight _ e _ _ _ => Some e
  | SimpleHtml.Plain _ => None
  end.

(** ** Spans that do not overlap *)

(** Each span of the list starts at or after the end of the one before
    it, the first one at or after [pos]. *)
Fixpoint non_overlapping (pos : Z) (l : list span) : Prop :=
  match l with
  | [] => True
  | sp :: l' => pos <= span_start sp /\ non_overlapping (span_end sp) l'
  end.

(** Two spans that share no character. *)
Definition disjoint (a b : span) : Prop :=
  span_end a <= span_start b \/ span_end b <= span_start a.

(** Any two spans of the list, at different places, are disjoint. *)
Fixpoint pairwise_disjoint (l : list span) : Prop :=
  match l with
  | [] => True
  | sp :: l' => Forall (disjoint sp) l' /\ pairwise_disjoint l'
  end.

(** ** The legend and the detail cards of [create_simple_html_visualization] *)

Module SimplePage.

(** [used_types], the set of the classes of all records. *)
Definition used_types (extractions : list extraction) : gset string :=
  list_to_set (map ext_type extractions).

(** The legend items appended for the classes of [used_types] that are
    in the colour table.  Python iterates over the set in an order of
    its own; the list below is one such order, and only the membership
    of an item is meant. *)
Definition legend_item (extraction_type : string) : option string :=
  match SimpleHtml.color_map !! extraction_type with
  | Some c =>
      Some ("<div class=" +:+ dquote +:+ "legend-item" +:+ dquote +:+ ">" +:+
            "<div class=" +:+ dquote +:+ "legend-box" +:+ dquote +:+
            " style=" +:+ dquote +:+ "background: " +:+ SimpleHtml.bg c +:+
            "; border-color: " +:+ SimpleHtml.border c +:+ ";" +:+ dquote +:+ "></div>" +:+
            "<span>" +:+ SimpleHtml.label c +:+ " (" +:+ extraction_type +:+ ")</span>" +:+
            "</div>")
  | None => None
  end.

Definition legend_classes (extractions : list extraction) : list string :=
  filter (fun extraction_type => is_Some (SimpleHtml.color_map !! extraction_type))
         (elements (used_types extractions)).

(** One detail card: its number in [enumerate(sorted_extractions)], the
    record, and the border colour. *)
Record card := Card {
  card_index : Z;
  card_ext : extraction;
  card_border : string
}.

Definition card_of (i : nat) (sp : span) : card :=
  let extraction_type := ext_type (span_ext sp) in
  let border :=
    match SimpleHtml.color_map !! extraction_type with
    | Some c => SimpleHtml.border c
    | None => "#adb5bd"
    end in
  {| card_index := Z.of_nat i; card_ext := span_ext sp; card_border := border |}.

(** The cards of the detail section, one per valid record, in the order
    of [sorted_extractions]. *)
Definition detail_cards (text : string) (extractions : list extraction) : list card :=
  imap card_of (sorted span_start (omap (SimpleHtml.valid text) extractions)).

Definition attribute_div (kv : string * string) : string :=
  "<div class=" +:+ dquote +:+ "attribute" +:+ dquote +:+ ">" +:+
  "<span class=" +:+ dquote +:+ "attribute-key" +:+ dquote +:+ ">" +:+ kv.1 +:+ ":</span> " +:+
  "<span class=" +:+ dquote +:+ "attribute-value" +:+ dquote +:+ ">" +:+ kv.2 +:+ "</span>" +:+
  "</div>".

(** The strings appended to [html_parts] for one card. *)
Definition render_card (c : card) : list string :=
  let e := card_ext c in
  [ "<div class=" +:+ dquote +:+ "extraction-card" +:+ dquote +:+
    " id=" +:+ dquote +:+ "detail-" +:+ of_int (card_index c) +:+ dquote +:+
    " style=" +:+ dquote +:+ "border-color: " +:+ card_border c +:+ ";" +:+ dquote +:+ ">" +:+
    "<div class=" +:+ dquote +:+ "extraction-header" +:+ dquote +:+ ">#" +:+
    of_int (card_index c + 1) +:+ " " +:+ ext_type e +:+ "</div>" +:+
    "<div class=" +:+ dquote +:+ "extraction-text" +:+ dquote +:+ ">" +:+
    ext_text e +:+ "</div>" ]
  ++ map attribute_div (ext_attrs e)
  ++ [ "</div>" ].

(** What is appended to [html_parts] for the detail section. *)
Definition detail_parts (text : string) (extractions : list extraction) : list string :=
  match omap (SimpleHtml.valid text) extractions with
  | [] => []
  | _ :: _ =>
      [ "<div class=" +:+ dquote +:+ "details" +:+ dquote +:+ ">"; "<h2>详细分析</h2>" ]
      ++ concat (map render_card (detail_cards text extractions))
      ++ [ "</div>" ]
  end.

(** The number and the record of a highlighted fragment of the text
    container. *)
Definition highlight_target (f : SimpleHtml.fragment) : option (Z * extraction) :=
  match f with
  | SimpleHtml.Highlight i e _ _ _ => Some (i, e)
  | SimpleHtml.Plain _ => None
  end.

End SimplePage.

(** ** The API key: [GrammarAnalyzer.__init__] and the check of [app.py] *)

Module ApiKey.

(** Truth value of an [Optional[str]]: [None] and the empty string are
    false. *)
Definition truthy (o : option string) : bool :=
  match o with
  | Some s => negb (String.eqb s EmptyString)
  | None => false
  end.

(** [a or b] *)
Definition py_or (a b : option string) : option string :=
  if truthy a then a else b.

Definition env_var : string := "LANGEXTRACT_API_KEY".

Record analyzer := Analyzer {
  api_key : option string;
  model_id : string
}.

Inductive init_error := ValueError.

(** [GrammarAnalyzer(api_key, model_id)] in the environment [environ]. *)
Definition init (key : option string) (model : string) (environ : gmap string string)
    : init_error + analyzer :=
  let self_api_key := py_or key (environ !! env_var) in
  if negb (truthy self_api_key) then inl ValueError
  else inr {| api_key := self_api_key; model_id := model |}.

(** The key that [app.py] settles on before it builds the analyzer:
    the environment first, then the secrets store, which raises
    [FileNotFoundError] ([None] here) when there is no secrets file.
    [None] as a result stands for [st.stop()]. *)
Definition resolve (environ : gmap string string)
    (secrets : option (gmap string string)) : option string :=
  let key := environ !! env_var in
  let key :=
    if negb (truthy key) then
      match secrets with
      | Some store =>
          match store !! env_var with
          | Some v => Some v
          | None => key
          end
      | None => key
      end
    else key in
  if negb (truthy key) then None else key.

End ApiKey.

(** ** The sample buttons of [app.py] *)

(** The label of the button of sample [i]. *)
Definition sample_label (i : Z) (sentence : string) : string :=
  if 40 <? len sentence
  then of_int i +:+ ". " +:+ slice sentence 0 40 +:+ "..."
  else of_int i +:+ ". " +:+ sentence.

(** ** The pipeline of [app.py] *)

(** An extraction of the service whose interval is present and lies in
    the text: [0 <= start < end <= len(text)]. *)
Definition interval_in_text (text : string) (x : Extraction) : bool :=
  match char_interval x with
  | Some ci =>
      (0 <=? start_pos ci) && (start_pos ci <? end_pos ci) && (end_pos ci <=? len text)
  | None => false
  end.

(** * Properties *)

(** ** Strings *)

Section StringFacts.

Lemma len_nonneg s : 0 <= len s.
Proof. unfold len. lia. Qed.

Lemma len_zero_empty s : len s = 0 -> s = EmptyString.
Proof. destruct s; [done | unfold len; simpl; lia]. Qed.

Lemma drop_zero s : PyStr.drop 0 s = s.
Proof. by destruct s. Qed.

Lemma take_drop n s : PyStr.take n s +:+ PyStr.drop n s = s.
Proof.
  revert s. induction n as [|n IH]; intros [|c s]; try done.
  change (String c (PyStr.take n s +:+ PyStr.drop n s) = String c s).
  by rewrite IH.
Qed.

Lemma slice_from_zero s : slice_from s 0 = s.
Proof.
  unfold slice_from, clamp. simpl.
  rewrite Z.min_l by apply len_nonneg. apply drop_zero.
Qed.

Lemma append_cons c s1 s2 : String c s1 +:+ s2 = String c (s1 +:+ s2).
Proof. reflexivity. Qed.

Lemma append_empty_r s : s +:+ EmptyString = s.
Proof. induction s as [|c s IH]; [done | by rewrite append_cons, IH]. Qed.

Lemma append_assoc s1 s2 s3 : (s1 +:+ s2) +:+ s3 = s1 +:+ (s2 +:+ s3).
Proof. induction s1 as [|c s1 IH]; [done | by rewrite !append_cons, IH]. Qed.

Lemma join_empty_app l1 l2 :
  join_empty (l1 ++ l2) = join_empty l1 +:+ join_empty l2.
Proof.
  induction l1 as [|s l1 IH]; [done |].
  cbn [app join_empty foldr]. fold (join_empty (l1 ++ l2)). fold (join_empty l1).
  by rewrite IH, append_assoc.
Qed.

Lemma take_take_drop a b s :
  (a <= b)%nat ->
  PyStr.take a s +:+ PyStr.take (b - a) (PyStr.drop a s) = PyStr.take b s.
Proof.
  revert b s. induction a as [|a IH]; intros b s Hab.
  - rewrite Nat.sub_0_r, drop_zero. reflexivity.
  - destruct b as [|b]; [lia |].
    destruct s as [|c s]; [simpl; by destruct (b - a)%nat |].
    change (String c (PyStr.take a s +:+ PyStr.take (b - a) (PyStr.drop a s))
            = String c (PyStr.take b s)).
    rewrite IH by lia. done.
Qed.

Lemma take_all s : PyStr.take (String.length s) s = s.
Proof.
  induction s as [|c s IH]; [done |].
  change (String c (PyStr.take (String.length s) s) = String c s). by rewrite IH.
Qed.

Lemma slice_in_range s a b :
  0 <= a <= b -> b <= len s ->
  slice s a b = PyStr.take (Z.to_nat b - Z.to_nat a) (PyStr.drop (Z.to_nat a) s).
Proof.
  intros Hab Hb. unfold slice, clamp.
  replace (a <? 0) with false by lia. replace (b <? 0) with false by lia.
  rewrite !Z.min_l by lia. by rewrite Z2Nat.inj_sub by lia.
Qed.

Lemma slice_from_in_range s a :
  0 <= a <= len s -> slice_from s a = PyStr.drop (Z.to_nat a) s.
Proof.
  intros Ha. unfold slice_from, clamp.
  replace (a <? 0) with false by lia. by rewrite Z.min_l by lia.
Qed.

End StringFacts.

(** ** Sorting *)

Section StableSortFacts.
Context {A : Type} (key : A -> Z).

Lemma insert_by_perm x l : insert_by key x l ≡ₚ x :: l.
Proof.
  induction l as [|y l IH]; simpl; [done |].
  destruct (key x <=? key y); [done |].
  rewrite IH. apply Permutation_swap.
Qed.

Lemma sorted_perm l : sorted key l ≡ₚ l.
Proof.
  induction l as [|x l IH]; simpl; [done |].
  unfold sorted in *. simpl. by rewrite insert_by_perm, IH.
Qed.

Lemma sorted_nil_inv l : sorted key l = [] -> l = [].
Proof.
  intros H. apply Permutation_nil_r. rewrite <- H. symmetry. apply sorted_perm.
Qed.

End StableSortFacts.

Section StableSortOrder.
Context {A : Type} (key : A -> Z).

Lemma insert_by_head x l :
  Forall (fun y => key x <= key y) l -> insert_by key x l = x :: l.
Proof.
  destruct l as [|y l]; [done |]. intros [Hy _]%Forall_cons. simpl.
  by replace (key x <=? key y) with true by lia.
Qed.

Lemma insert_by_ordered x l :
  StronglySorted (fun a b => key a <= key b) l ->
  StronglySorted (fun a b => key a <= key b) (insert_by key x l).
Proof.
  induction 1 as [|y l Hl IH Hy]; simpl; [repeat constructor |].
  destruct (key x <=? key y) eqn:Hxy.
  - constructor; [by constructor |]. constructor; [lia |].
    eapply Forall_impl; [exact Hy |]. simpl. intros z Hz. lia.
  - constructor; [exact IH |].
    rewrite insert_by_perm. constructor; [lia | exact Hy].
Qed.

(** The result of [sorted] is in ascending order of the key. *)
Lemma sorted_ordered l :
  StronglySorted (fun a b => key a <= key b) (sorted key l).
Proof.
  induction l as [|x l IH]; [constructor |]. by apply insert_by_ordered.
Qed.

Lemma filter_insert_by (P : A -> Prop) `{!forall x, Decision (P x)} x l :
  StronglySorted (fun a b => key a <= key b) l ->
  filter P (insert_by key x l) =
  if decide (P x) then insert_by key x (filter P l) else filter P l.
Proof.
  induction 1 as [|y l Hl IH Hy]; simpl.
  { rewrite filter_cons, filter_nil. by destruct (decide (P x)). }
  destruct (key x <=? key y) eqn:Hxy.
  - rewrite (filter_cons _ x). destruct (decide (P x)) as [Hx|Hx]; [| done].
    rewrite insert_by_head; [done |].
    apply Forall_forall. intros z Hz. apply list_elem_of_filter in Hz as [_ Hz].
    apply elem_of_cons in Hz as [->|Hz]; [lia |].
    eapply Forall_forall in Hy; [| exact Hz]. simpl in Hy. lia.
  - rewrite !(filter_cons _ y), IH.
    destruct (decide (P x)), (decide (P y)); simpl; try done.
    by rewrite Hxy.
Qed.

(** Sorting and filtering commute: [sorted] moves no record past another
    one except to put a smaller key first. *)
Lemma filter_sorted (P : A -> Prop) `{!forall x, Decision (P x)} l :
  filter P (sorted key l) = sorted key (filter P l).
Proof.
  induction l as [|x l IH]; [done |].
  change (sorted key (x :: l)) with (insert_by key x (sorted key l)).
  rewrite filter_insert_by by apply sorted_ordered.
  rewrite filter_cons, IH. by destruct (decide (P x)).
Qed.

Lemma insert_by_same_key x l :
  filter (fun y => key y = key x) (insert_by key x l) =
  x :: filter (fun y => key y = key x) l.
Proof.
  induction l as [|y l IH]; simpl.
  { rewrite filter_cons, filter_nil. by rewrite decide_True. }
  destruct (key x <=? key y) eqn:Hxy.
  - rewrite (filter_cons _ x). by rewrite decide_True.
  - rewrite !(filter_cons _ y).
    destruct (decide (key y = key x)); [lia | exact IH].
Qed.

Lemma insert_by_other_key k x l :
  key x <> k ->
  filter (fun y => key y = k) (insert_by key x l) = filter (fun y => key y = k) l.
Proof.
  intros Hk. induction l as [|y l IH]; simpl.
  { rewrite filter_cons, filter_nil. by rewrite decide_False. }
  destruct (key x <=? key y) eqn:Hxy.
  - rewrite (filter_cons _ x). by rewrite decide_False.
  - rewrite !(filter_cons _ y), IH. done.
Qed.

(** [sorted] is stable: records with the same key stand in the order of
    the input. *)
Lemma sorted_stable k l :
  filter (fun y => key y = k) (sorted key l) = filter (fun y => key y = k) l.
Proof.
  induction l as [|x l IH]; [done |].
  change (sorted key (x :: l)) with (insert_by key x (sorted key l)).
  rewrite filter_cons. destruct (decide (key x = k)) as [<-|Hne].
  - by rewrite insert_by_same_key, IH.
  - by rewrite insert_by_other_key, IH.
Qed.

End StableSortOrder.

(** ** The inline renderer: which spans are highlighted *)

Lemma foldl_step {A B} (f : A -> B -> A) a x l :
  foldl f a (x :: l) = foldl f (f a x) l.
Proof. reflexivity. Qed.

Section ColoredLoop.
Context (text : string) (color_map : gmap string string).

Lemma colored_step_skip st sp :
  renderable text sp = false -> colored_step text color_map st sp = st.
Proof.
  destruct st as [parts pos]. unfold renderable, colored_step.
  intros H. apply negb_false_iff in H. by rewrite H.
Qed.

Lemma colored_step_emit parts pos sp :
  renderable text sp = true ->
  colored_step text color_map (parts, pos) sp =
    ((if pos <? span_start sp
      then parts ++ [Plain (slice text pos (span_start sp))]
      else parts)
     ++ [Highlight (span_ext sp)
           (default "#CCCCCC" (color_map !! ext_type (span_ext sp)))
           (slice text (span_start sp) (span_end sp))
           (colored_tooltip_html (span_ext sp))],
     Z.max pos (span_end sp)).
Proof.
  unfold renderable, colored_step. intros H.
  apply negb_true_iff in H. by rewrite H.
Qed.

Lemma colored_loop_skip_all l st :
  filter (renderable text) l = [] -> foldl (colored_step text color_map) st l = st.
Proof.
  revert st. induction l as [|sp l IH]; intros st; [done |]. rewrite foldl_step.
  rewrite filter_cons. destruct (decide (renderable text sp)) as [Hr|Hr]; [done |].
  intros Hl. rewrite colored_step_skip; [by apply IH |].
  by destruct (renderable text sp).
Qed.

Lemma colored_loop_highlighted l parts pos :
  omap highlighted (foldl (colored_step text color_map) (parts, pos) l).1 =
  omap highlighted parts ++ map span_ext (filter (renderable text) l).
Proof.
  revert parts pos. induction l as [|sp l IH]; intros parts pos.
  - simpl. by rewrite app_nil_r.
  - rewrite foldl_step, filter_cons. destruct (decide (renderable text sp)) as [Hr|Hr].
    + apply Is_true_true in Hr. rewrite colored_step_emit by done.
      rewrite IH. rewrite omap_app. simpl.
      destruct (pos <? span_start sp); [rewrite omap_app; simpl; rewrite app_nil_r |];
        by rewrite <- app_assoc.
    + rewrite colored_step_skip; [apply IH |]. by destruct (renderable text sp).
Qed.

End ColoredLoop.

Lemma colored_valid_spec text e :
  match colored_valid e with
  | Some sp =>
      span_ext sp = e /\ offsets e = Some (span_start sp, span_end sp) /\
      renderable text sp = Spec.valid_span text e
  | None => Spec.valid_span text e = false
  end.
Proof.
  unfold colored_valid, Spec.valid_span, offsets, renderable.
  destruct (pos_start (ext_pos e)) as [s|], (pos_end (ext_pos e)) as [t|]; try done.
  destruct ((0 <=? s) && (s <? t)) eqn:Hv; [| done].
  simpl. repeat split. apply andb_true_iff in Hv as [H0 Hst].
  destruct (t <=? len text) eqn:Ht.
  - replace (len text <=? s) with false by lia.
    replace (len text <? t) with false by lia.
    by replace (t <=? s) with false by lia.
  - replace (len text <? t) with true by lia. by rewrite orb_true_r.
Qed.

Lemma valid_spans_renderable text exts :
  map span_ext (filter (renderable text) (omap colored_valid exts)) =
  filter (Spec.valid_span text) exts.
Proof.
  induction exts as [|e exts IH]; [done |].
  rewrite (filter_cons _ e). cbn [omap list_omap].
  pose proof (colored_valid_spec text e) as He.
  destruct (colored_valid e) as [sp|].
  - destruct He as (Hext & _ & Hr). rewrite filter_cons.
    destruct (decide (renderable text sp)) as [H1|H1];
      destruct (decide (Spec.valid_span text e)) as [H2|H2];
      rewrite Hr in H1; try done.
    simpl. by rewrite Hext, IH.
  - destruct (decide (Spec.valid_span text e)) as [H2|H2]; [| exact IH].
    by rewrite He in H2.
Qed.

Lemma omap_colored_valid_ok exts :
  Forall (fun sp => colored_valid (span_ext sp) = Some sp) (omap colored_valid exts).
Proof.
  apply Forall_forall. intros sp Hsp.
  apply list_elem_of_omap in Hsp as (e & _ & He).
  pose proof (colored_valid_spec EmptyString e) as Hspec.
  rewrite He in Hspec. destruct Hspec as (Hext & _). by rewrite Hext.
Qed.

Lemma colored_loop_bodies text color_map l parts pos :
  Forall (fun sp => colored_valid (span_ext sp) = Some sp) l ->
  Forall (fun f => forall e color body tt, f = Highlight e color body tt ->
            Spec.valid_span text e /\
            exists s t, offsets e = Some (s, t) /\ body = slice text s t) parts ->
  Forall (fun f => forall e color body tt, f = Highlight e color body tt ->
            Spec.valid_span text e /\
            exists s t, offsets e = Some (s, t) /\ body = slice text s t)
    (foldl (colored_step text color_map) (parts, pos) l).1.
Proof.
  revert parts pos. induction l as [|sp l IH]; intros parts pos Hl Hparts; [done |].
  rewrite foldl_step. apply Forall_cons in Hl as [Hsp Hl].
  destruct (renderable text sp) eqn:Hr.
  - rewrite colored_step_emit by done. apply IH; [done |].
    apply Forall_app. split.
    + destruct (pos <? span_start sp); [| done].
      apply Forall_app. split; [done |]. by apply Forall_singleton.
    + apply Forall_singleton. intros e color body tt [= <- _ <- _].
      pose proof (colored_valid_spec text (span_ext sp)) as Hspec.
      rewrite Hsp in Hspec. destruct Hspec as (_ & Hoff & Hv).
      split; [by rewrite <- Hv, Hr | eauto].
  - rewrite colored_step_skip by done. by apply IH.
Qed.


(** ** The inline renderer: only the valid spans count *)

Lemma colored_loop_filter text color_map l st :
  foldl (colored_step text color_map) st l =
  foldl (colored_step text color_map) st (filter (renderable text) l).
Proof.
  revert st. induction l as [|sp l IH]; intros st; [done |].
  rewrite foldl_step, filter_cons.
  destruct (decide (renderable text sp)) as [Hr|Hr].
  - by rewrite foldl_step.
  - rewrite colored_step_skip; [apply IH |]. by destruct (renderable text sp).
Qed.

Lemma omap_colored_valid_filter text (exts : list extraction) :
  filter (renderable text) (omap colored_valid exts) =
  omap colored_valid (filter (Spec.valid_span text) exts).
Proof.
  induction exts as [|e exts IH]; [done |].
  rewrite (filter_cons _ e). cbn [omap list_omap].
  pose proof (colored_valid_spec text e) as He.
  destruct (colored_valid e) as [sp|] eqn:Hcv.
  - destruct He as (Hext & _ & Hr). rewrite filter_cons.
    destruct (decide (renderable text sp)) as [H1|H1];
      destruct (decide (Spec.valid_span text e)) as [H2|H2];
      rewrite Hr in H1; try done.
    cbn [omap list_omap]. by rewrite Hcv, IH.
  - destruct (decide (Spec.valid_span text e)) as [H2|H2]; [| exact IH].
    by rewrite He in H2.
Qed.

Lemma valid_span_filter_idemp text (exts : list extraction) :
  filter (Spec.valid_span text) (filter (Spec.valid_span text) exts) =
  filter (Spec.valid_span text) exts.
Proof.
  induction exts as [|e exts IH]; [done |].
  rewrite (filter_cons _ e). destruct (decide (Spec.valid_span text e)) as [H|H]; [| done].
  rewrite filter_cons. destruct (decide (Spec.valid_span text e)); [| done].
  by rewrite IH.
Qed.

(** The state at the end of the loop is the one reached on the valid
    spans alone. *)
Lemma colored_loop_valid_only text color_map exts :
  foldl (colored_step text color_map) ([], 0)
    (sorted span_start (omap colored_valid exts)) =
  foldl (colored_step text color_map) ([], 0)
    (sorted span_start (omap colored_valid (filter (Spec.valid_span text) exts))).
Proof.
  rewrite colored_loop_filter, filter_sorted, omap_colored_valid_filter. done.
Qed.

Lemma colored_text_valid_only text exts color_map :
  create_colored_text text exts color_map =
  create_colored_text text (filter (Spec.valid_span text) exts) color_map.
Proof.
  unfold create_colored_text, colored_parts.
  set (cm := default default_color_map color_map).
  pose proof (colored_loop_valid_only text cm exts) as Hloop.
  pose proof (omap_colored_valid_filter text exts) as Hfil.
  destruct (omap colored_valid (filter (Spec.valid_span text) exts)) as [|sp1 l1] eqn:H1.
  - destruct (omap colored_valid exts) as [|sp0 l0] eqn:H0; [done |].
    rewrite Hloop. simpl.
    destruct (0 <? len text) eqn:Hlen; simpl.
    + by rewrite slice_from_zero.
    + rewrite (len_zero_empty text); [done |]. pose proof (len_nonneg text). lia.
  - destruct (omap colored_valid exts) as [|sp0 l0] eqn:H0; [done |].
    by rewrite Hloop.
Qed.

(** C4. [create_colored_text] highlights exactly the spans whose offsets
    are integers with [0 <= start < end <= len(text)]: the records of
    the highlighted fragments are those spans, each once per occurrence
    in the input, and the body of a highlighted fragment is
    [text[start:end]].  The other spans contribute nothing: the
    returned string is the one obtained from the valid spans alone.
    When no span of the input is valid (an empty list included), there
    is no highlighted fragment, the base text is the source text, and
    so is the returned string. *)
Theorem colored_text_highlights_valid_spans text exts color_map :
  let parts := colored_parts text exts color_map in
  omap highlighted parts ≡ₚ filter (Spec.valid_span text) exts /\
  (forall e color body tt,
     Highlight e color body tt ∈ parts ->
     Spec.valid_span text e /\
     exists s t, offsets e = Some (s, t) /\ body = slice text s t) /\
  create_colored_text text exts color_map =
    create_colored_text text (filter (Spec.valid_span text) exts) color_map /\
  (filter (Spec.valid_span text) exts = [] ->
   omap highlighted parts = [] /\ base_of parts = text /\
   create_colored_text text exts color_map = text).
Proof.
  cbv zeta.
  enough (omap highlighted (colored_parts text exts color_map)
            ≡ₚ filter (Spec.valid_span text) exts /\
          (forall e color body tt,
             Highlight e color body tt ∈ colored_parts text exts color_map ->
             Spec.valid_span text e /\
             exists s t, offsets e = Some (s, t) /\ body = slice text s t) /\
          (filter (Spec.valid_span text) exts = [] ->
           omap highlighted (colored_parts text exts color_map) = [] /\
           base_of (colored_parts text exts color_map) = text /\
           create_colored_text text exts color_map = text))
    as (H1 & H2 & H3).
  { split; [done |]. split; [done |].
    split; [apply colored_text_valid_only | done]. }
  unfold create_colored_text, base_of, colored_parts.
  set (cm := default default_color_map color_map).
  pose proof (valid_spans_renderable text exts) as Hvalid.
  pose proof (omap_colored_valid_ok exts) as Hok.
  destruct (omap colored_valid exts) as [|sp0 l0] eqn:Hom.
  { rewrite <- Hvalid. simpl. split; [done |]. split.
    - intros e color body tt Hin. by apply list_elem_of_singleton in Hin.
    - intros _. by rewrite append_empty_r. }
  set (l := sp0 :: l0) in *.
  pose proof (colored_loop_highlighted text cm (sorted span_start l) [] 0) as Hhl.
  pose proof (colored_loop_bodies text cm (sorted span_start l) [] 0) as Hbody.
  pose proof (colored_loop_skip_all text cm (sorted span_start l) ([], 0)) as Hskip.
  destruct (foldl (colored_step text cm) ([], 0) (sorted span_start l))
    as [html_parts last_pos] eqn:Hloop.
  cbn [fst] in Hhl, Hbody.
  assert (Hperm : omap highlighted html_parts ≡ₚ filter (Spec.valid_span text) exts).
  { rewrite Hhl, <- Hvalid. apply fmap_Permutation, filter_Permutation, sorted_perm. }
  assert (Hwf : Forall (fun f => forall e color body tt, f = Highlight e color body tt ->
            Spec.valid_span text e /\
            exists s t, offsets e = Some (s, t) /\ body = slice text s t) html_parts).
  { apply Hbody; [| done].
    eapply Forall_forall. intros sp Hsp. rewrite sorted_perm in Hsp.
    by eapply Forall_forall in Hok. }
  assert (Hnil : filter (Spec.valid_span text) exts = [] ->
                 html_parts = [] /\ last_pos = 0).
  { intros Hnone. rewrite Hnone in Hvalid. apply fmap_nil_inv in Hvalid.
    assert (Hpair : (html_parts, last_pos) = ([], 0)); [| by injection Hpair].
    apply Hskip, Permutation_nil_r. rewrite <- Hvalid.
    apply filter_Permutation, sorted_perm. }
  split; [| split; [| intros Hnone; split; [| split]]].
  - destruct (last_pos <? len text); [| done].
    by rewrite omap_app, app_nil_r.
  - intros e color body tt Hin.
    assert (Hin' : Highlight e color body tt ∈ html_parts).
    { destruct (last_pos <? len text); [| done].
      apply elem_of_app in Hin as [Hin|Hin]; [done |].
      by apply list_elem_of_singleton in Hin. }
    eapply Forall_forall in Hwf; [| exact Hin']. by eapply Hwf.
  - destruct (Hnil Hnone) as [-> ->]. by destruct (0 <? len text).
  - destruct (Hnil Hnone) as [-> ->].
    destruct (0 <? len text) eqn:Hlen; simpl.
    + by rewrite slice_from_zero, append_empty_r.
    + symmetry. apply len_zero_empty. pose proof (len_nonneg text). lia.
  - destruct (Hnil Hnone) as [-> ->].
    destruct (0 <? len text) eqn:Hlen; simpl.
    + by rewrite slice_from_zero, append_empty_r.
    + symmetry. apply len_zero_empty. pose proof (len_nonneg text). lia.
Qed.

Lemma colored_text_highlights_valid_spans_witness :
  omap highlighted (colored_parts "abc" [Examples.mk "verb" 0 0; Examples.mk "verb" 2 9] None) = [] /\
  base_of (colored_parts "abc" [Examples.mk "verb" 0 0; Examples.mk "verb" 2 9] None) = "abc" /\
  create_colored_text "abc" [Examples.mk "verb" 0 0; Examples.mk "verb" 2 9] None = "abc".
Proof.
  apply (proj2 (proj2 (proj2 (colored_text_highlights_valid_spans
           "abc" [Examples.mk "verb" 0 0; Examples.mk "verb" 2 9] None)))).
  reflexivity.
Defined.
(** ** The inline renderer on spans that do not overlap *)

Lemma base_of_app l1 l2 : base_of (l1 ++ l2) = base_of l1 +:+ base_of l2.
Proof. unfold base_of. by rewrite map_app, join_empty_app. Qed.

Lemma non_overlapping_weaken pos pos' l :
  pos' <= pos -> non_overlapping pos l -> non_overlapping pos' l.
Proof. destruct l as [|sp l]; [done |]. simpl. intros ? [? ?]. split; [lia | done]. Qed.

Lemma colored_loop_non_overlapping text color_map l parts pos :
  0 <= pos <= len text ->
  base_of parts = PyStr.take (Z.to_nat pos) text ->
  Forall (fun sp => 0 <= span_start sp < span_end sp) l ->
  non_overlapping pos l ->
  let st := foldl (colored_step text color_map) (parts, pos) l in
  0 <= st.2 <= len text /\ base_of st.1 = PyStr.take (Z.to_nat st.2) text.
Proof.
  revert parts pos. induction l as [|sp l IH]; intros parts pos Hpos Hbase Hall Hno;
    [done |].
  cbv zeta. rewrite foldl_step.
  apply Forall_cons in Hall as [H0 Hall]. destruct Hno as [Hle Hno].
  destruct (renderable text sp) eqn:Hr.
  - rewrite colored_step_emit by done.
    unfold renderable in Hr. apply negb_true_iff, orb_false_iff in Hr as [Hr H3].
    apply orb_false_iff in Hr as [H1 H2].
    rewrite Z.max_r by lia. apply IH; [lia | | done | done].
    rewrite base_of_app.
    assert (Hplain : base_of (if pos <? span_start sp
                              then parts ++ [Plain (slice text pos (span_start sp))]
                              else parts)
                     = PyStr.take (Z.to_nat (span_start sp)) text).
    { destruct (pos <? span_start sp) eqn:Hlt.
      - rewrite base_of_app, Hbase. unfold base_of at 1. simpl.
        rewrite append_empty_r, slice_in_range by lia.
        apply take_take_drop. lia.
      - replace (span_start sp) with pos by lia. done. }
    rewrite Hplain. unfold base_of at 1. simpl.
    rewrite append_empty_r, slice_in_range by lia.
    apply take_take_drop. lia.
  - rewrite colored_step_skip by done. apply IH; try done.
    eapply non_overlapping_weaken; [| exact Hno]. lia.
Qed.

Lemma disjoint_sym a b : disjoint a b -> disjoint b a.
Proof. unfold disjoint. tauto. Qed.

Lemma pairwise_disjoint_insert x l :
  Forall (disjoint x) l -> pairwise_disjoint l ->
  pairwise_disjoint (insert_by span_start x l).
Proof.
  induction l as [|y l IH]; intros Hx Hl; [done |].
  simpl. destruct (span_start x <=? span_start y); [done |].
  apply Forall_cons in Hx as [Hxy Hx]. destruct Hl as [Hy Hl].
  split; [| by apply IH].
  rewrite insert_by_perm. constructor; [by apply disjoint_sym | done].
Qed.

Lemma pairwise_disjoint_sorted l :
  pairwise_disjoint l -> pairwise_disjoint (sorted span_start l).
Proof.
  induction l as [|x l IH]; [done |]. intros [Hx Hl].
  change (sorted span_start (x :: l))
    with (insert_by span_start x (sorted span_start l)).
  apply pairwise_disjoint_insert; [| by apply IH].
  by rewrite sorted_perm.
Qed.

Lemma ordered_disjoint_non_overlapping pos l :
  Forall (fun sp => pos <= span_start sp < span_end sp) l ->
  StronglySorted (fun a b => span_start a <= span_start b) l ->
  pairwise_disjoint l ->
  non_overlapping pos l.
Proof.
  revert pos. induction l as [|sp l IH]; intros pos Hall Hsorted Hdis; [done |].
  apply Forall_cons in Hall as [Hsp Hall].
  apply StronglySorted_inv in Hsorted as [Hsorted Hle].
  destruct Hdis as [Hd Hdis]. split; [lia |].
  apply IH; [| done | done].
  apply Forall_forall. intros sp' Hin.
  eapply Forall_forall in Hall; [| exact Hin].
  eapply Forall_forall in Hle; [| exact Hin].
  eapply Forall_forall in Hd; [| exact Hin].
  unfold disjoint in Hd. simpl in *. lia.
Qed.

Lemma omap_colored_valid_bounds (exts : list extraction) :
  Forall (fun sp => 0 <= span_start sp < span_end sp) (omap colored_valid exts).
Proof.
  apply Forall_forall. intros sp Hsp.
  apply list_elem_of_omap in Hsp as (e & _ & He).
  unfold colored_valid in He.
  destruct (offsets e) as [[s t]|]; [| done].
  destruct ((0 <=? s) && (s <? t)) eqn:Hv; [| done].
  injection He as <-. simpl. lia.
Qed.

(** When the valid spans of the input are pairwise disjoint, the output
    of [create_colored_text] covers the source text exactly once: its
    base text is the source text. *)
Theorem colored_text_covers_text_without_overlap text exts color_map :
  pairwise_disjoint (omap colored_valid (filter (Spec.valid_span text) exts)) ->
  base_of (colored_parts text exts color_map) = text.
Proof.
  intros Hdis. unfold colored_parts.
  set (cm := default default_color_map color_map).
  destruct (omap colored_valid exts) as [|sp0 l0] eqn:Hom.
  { unfold base_of. simpl. apply append_empty_r. }
  rewrite <- Hom, colored_loop_valid_only. clear sp0 l0 Hom.
  set (l := omap colored_valid (filter (Spec.valid_span text) exts)) in *.
  pose proof (omap_colored_valid_bounds (filter (Spec.valid_span text) exts)) as Hb.
  fold l in Hb.
  assert (Hb' : Forall (fun sp => 0 <= span_start sp < span_end sp) (sorted span_start l)).
  { apply Forall_forall. intros sp Hsp. rewrite sorted_perm in Hsp.
    by eapply Forall_forall in Hb. }
  pose proof (colored_loop_non_overlapping text cm (sorted span_start l) [] 0
                ltac:(pose proof (len_nonneg text); lia) eq_refl Hb'
                (ordered_disjoint_non_overlapping 0 _ Hb' (sorted_ordered _ _)
                   (pairwise_disjoint_sorted _ Hdis))) as [Hpos Hbase].
  destruct (foldl _ _ _) as [html_parts last_pos]. simpl in Hpos, Hbase.
  destruct (last_pos <? len text) eqn:Hlt.
  - rewrite base_of_app, Hbase. unfold base_of. simpl.
    rewrite append_empty_r, slice_from_in_range by lia. apply take_drop.
  - rewrite Hbase. replace last_pos with (len text) by lia.
    unfold len. rewrite Nat2Z.id. apply take_all.
Qed.

(** ** The standalone renderer: which spans are highlighted *)

Lemma simple_valid_spec text e :
  match SimpleHtml.valid text e with
  | Some sp => span_ext sp = e /\ Spec.valid_span text e
  | None => Spec.valid_span text e = false
  end.
Proof.
  unfold SimpleHtml.valid, Spec.valid_span, offsets.
  destruct (pos_start (ext_pos e)) as [s|], (pos_end (ext_pos e)) as [t|]; try done.
  by destruct ((0 <=? s) && (s <? t) && (t <=? len text)).
Qed.

Lemma simple_loop_highlighted text l parts pos i :
  omap simple_highlighted (foldl (SimpleHtml.step text) (parts, pos, i) l).1.1 =
  omap simple_highlighted parts ++ map span_ext l.
Proof.
  revert parts pos i. induction l as [|sp l IH]; intros parts pos i.
  - simpl. by rewrite app_nil_r.
  - rewrite foldl_step. unfold SimpleHtml.step at 2. rewrite IH.
    rewrite omap_app. simpl.
    destruct (pos <? span_start sp); [rewrite omap_app; simpl; rewrite app_nil_r |];
      by rewrite <- app_assoc.
Qed.

Lemma simple_highlighted_valid text exts e :
  e ∈ omap simple_highlighted (SimpleHtml.text_container_parts text exts) ->
  Spec.valid_span text e.
Proof.
  unfold SimpleHtml.text_container_parts, SimpleHtml.run_loop.
  destruct (omap (SimpleHtml.valid text) exts) as [|sp0 l0] eqn:Hom.
  { simpl. by intros ?%elem_of_nil. }
  rewrite <- Hom. clear sp0 l0 Hom.
  pose proof (simple_loop_highlighted text
                (sorted span_start (omap (SimpleHtml.valid text) exts)) [] 0 0) as Hhl.
  destruct (foldl _ _ _) as [[html_parts last_pos] i]. cbn [fst] in Hhl.
  intros Hin.
  assert (Hin' : e ∈ omap simple_highlighted html_parts).
  { destruct (last_pos <? len text); [| done].
    by rewrite omap_app, app_nil_r in Hin. }
  rewrite Hhl in Hin'. simpl in Hin'.
  apply list_elem_of_fmap in Hin' as (sp & -> & Hsp).
  rewrite sorted_perm in Hsp.
  apply list_elem_of_omap in Hsp as (e' & _ & He').
  pose proof (simple_valid_spec text e') as Hspec. rewrite He' in Hspec.
  destruct Hspec as [-> Hv]. done.
Qed.

Lemma colored_highlighted_valid text exts color_map e :
  e ∈ omap highlighted (colored_parts text exts color_map) ->
  exists s t, offsets e = Some (s, t) /\ 0 <= s < t.
Proof.
  unfold colored_parts.
  set (cm := default default_color_map color_map).
  destruct (omap colored_valid exts) as [|sp0 l0] eqn:Hom.
  { simpl. by intros ?%elem_of_nil. }
  rewrite <- Hom. clear sp0 l0 Hom.
  pose proof (colored_loop_highlighted text cm
                (sorted span_start (omap colored_valid exts)) [] 0) as Hhl.
  destruct (foldl _ _ _) as [html_parts last_pos]. cbn [fst] in Hhl.
  intros Hin.
  assert (Hin' : e ∈ omap highlighted html_parts).
  { destruct (last_pos <? len text); [| done].
    by rewrite omap_app, app_nil_r in Hin. }
  rewrite Hhl in Hin'. simpl in Hin'.
  apply list_elem_of_fmap in Hin' as (sp & -> & Hsp).
  apply list_elem_of_filter in Hsp as [_ Hsp].
  rewrite sorted_perm in Hsp.
  apply list_elem_of_omap in Hsp as (e' & _ & He').
  unfold colored_valid in He'.
  destruct (offsets e') as [[s t]|] eqn:Hoff; [| done].
  destruct ((0 <=? s) && (s <? t)) eqn:Hv; [| done].
  injection He' as <-. simpl. exists s, t. split; [done | lia].
Qed.

(** ** The normalizer *)

Lemma format_extractions_map result :
  format_extractions result = map format_extraction (extractions result).
Proof.
  unfold format_extractions.
  enough (forall l acc,
    foldl (fun formatted x => formatted ++ [format_extraction x]) acc l =
    acc ++ map format_extraction l) as H by apply (H _ []).
  induction l as [|x l IH]; intros acc; simpl; [by rewrite app_nil_r |].
  by rewrite IH, <- app_assoc.
Qed.

(** C7. An extraction without a character interval is normalized to a
    record with offsets [(0, 0)]; [format_extractions] is a total
    function that produces one record per extraction.  That record
    fails the filter of both renderers, so neither renderer emits a
    highlighted fragment for it. *)
Theorem missing_offsets_degrade_silently (x : Extraction) :
  char_interval x = None ->
  ext_pos (format_extraction x) = {| pos_start := Some 0; pos_end := Some 0 |} /\
  (forall result,
     format_extractions result = map format_extraction (extractions result)) /\
  colored_valid (format_extraction x) = None /\
  (forall text, SimpleHtml.valid text (format_extraction x) = None) /\
  (forall text exts color_map,
     format_extraction x ∉ omap highlighted (colored_parts text exts color_map)) /\
  (forall text exts,
     format_extraction x ∉
       omap simple_highlighted (SimpleHtml.text_container_parts text exts)).
Proof.
  intros Hnone.
  assert (Hpos : ext_pos (format_extraction x) =
                 {| pos_start := Some 0; pos_end := Some 0 |}).
  { unfold format_extraction. by rewrite Hnone. }
  assert (Hoff : offsets (format_extraction x) = Some (0, 0)).
  { unfold offsets. by rewrite Hpos. }
  split; [done |]. split; [apply format_extractions_map |].
  split; [| split; [| split]].
  - unfold colored_valid. by rewrite Hoff.
  - intros text. unfold SimpleHtml.valid. by rewrite Hoff.
  - intros text exts color_map Hin.
    apply colored_highlighted_valid in Hin as (s & t & Hst & Hlt).
    rewrite Hoff in Hst. injection Hst as <- <-. lia.
  - intros text exts Hin. apply simple_highlighted_valid in Hin.
    unfold Spec.valid_span in Hin. by rewrite Hpos in Hin.
Qed.

Lemma missing_offsets_degrade_silently_witness :
  ext_pos (format_extraction
             {| extraction_class := "verb"; extraction_text := "jumps";
                attributes := []; char_interval := None |}) =
    {| pos_start := Some 0; pos_end := Some 0 |} /\
  colored_valid (format_extraction
             {| extraction_class := "verb"; extraction_text := "jumps";
                attributes := []; char_interval := None |}) = None.
Proof.
  pose proof (missing_offsets_degrade_silently
                {| extraction_class := "verb"; extraction_text := "jumps";
                   attributes := []; char_interval := None |} eq_refl) as H.
  split; [apply H | apply H].
Defined.

(** ** Tooltips of the standalone renderer *)

Lemma simple_tooltip_parts_spec e : SimpleHtml.tooltip_parts e = Spec.tooltip_lines e.
Proof.
  unfold SimpleHtml.tooltip_parts, Spec.tooltip_lines, Spec.line.
  destruct (attrs_get "role" (ext_attrs e)) as [r|],
           (attrs_get "meaning" (ext_attrs e)) as [m|],
           (attrs_get "type" (ext_attrs e)) as [v|]; simpl; try done;
    destruct (String.eqb_spec v (ext_type e)) as [->|Hne]; simpl;
    destruct (decide _) as [Heq|Hne']; done.
Qed.

Lemma simple_loop_tooltips text l parts pos i :
  Forall (fun f => forall j e c tt body,
            f = SimpleHtml.Highlight j e c tt body -> tt = SimpleHtml.tooltip e) parts ->
  Forall (fun f => forall j e c tt body,
            f = SimpleHtml.Highlight j e c tt body -> tt = SimpleHtml.tooltip e)
    (foldl (SimpleHtml.step text) (parts, pos, i) l).1.1.
Proof.
  revert parts pos i. induction l as [|sp l IH]; intros parts pos i Hparts; [done |].
  rewrite foldl_step. unfold SimpleHtml.step at 2. apply IH.
  apply Forall_app. split.
  - destruct (pos <? span_start sp); [| done].
    apply Forall_app. split; [done |]. by apply Forall_singleton.
  - apply Forall_singleton. by intros j e c tt body [= _ <- _ <- _].
Qed.

(** C8. The tooltip of [create_simple_html_visualization] is the class
    tag followed by a role line when the attribute [role] is present, a
    meaning line when [meaning] is present, and a type line when [type]
    is present and differs from the class tag, joined by [ | ]; every
    highlighted fragment carries this tooltip for its record.  When
    [attributes[type]] equals the class tag there is no type line. *)
Theorem simple_html_tooltip_composition (e : extraction) :
  SimpleHtml.tooltip_parts e = Spec.tooltip_lines e /\
  SimpleHtml.tooltip e = join " | " (Spec.tooltip_lines e) /\
  (forall text exts i e' c tt body,
     SimpleHtml.Highlight i e' c tt body ∈ SimpleHtml.text_container_parts text exts ->
     tt = join " | " (Spec.tooltip_lines e')) /\
  (attrs_get "type" (ext_attrs e) = Some (ext_type e) ->
   SimpleHtml.tooltip_parts e =
     [ext_type e]
     ++ Spec.line "语法功能: " (attrs_get "role" (ext_attrs e))
     ++ Spec.line "含义: " (attrs_get "meaning" (ext_attrs e))) /\
  (forall v, attrs_get "type" (ext_attrs e) = Some v -> v <> ext_type e ->
   SimpleHtml.tooltip_parts e =
     [ext_type e]
     ++ Spec.line "语法功能: " (attrs_get "role" (ext_attrs e))
     ++ Spec.line "含义: " (attrs_get "meaning" (ext_attrs e))
     ++ ["类型: " +:+ v]).
Proof.
  split; [apply simple_tooltip_parts_spec |].
  split; [unfold SimpleHtml.tooltip; by rewrite simple_tooltip_parts_spec |].
  split; [| split].
  - intros text exts i e' c tt body.
    unfold SimpleHtml.text_container_parts, SimpleHtml.run_loop.
    destruct (omap (SimpleHtml.valid text) exts) as [|sp0 l0].
    { by intros ?%list_elem_of_singleton. }
    pose proof (simple_loop_tooltips text (sorted span_start (sp0 :: l0)) [] 0 0) as Htt.
    destruct (foldl _ _ _) as [[html_parts last_pos] k]. cbn [fst] in Htt.
    intros Hin.
    assert (Hin' : SimpleHtml.Highlight i e' c tt body ∈ html_parts).
    { destruct (last_pos <? len text); [| done].
      apply elem_of_app in Hin as [Hin|Hin]; [done |].
      by apply list_elem_of_singleton in Hin. }
    eapply Forall_forall in Htt; [| done | exact Hin'].
    rewrite (Htt i e' c tt body eq_refl).
    unfold SimpleHtml.tooltip. by rewrite simple_tooltip_parts_spec.
  - intros Hty. rewrite simple_tooltip_parts_spec. unfold Spec.tooltip_lines.
    rewrite Hty. destruct (decide _); [| done]. simpl. by rewrite app_nil_r.
  - intros v Hty Hne. rewrite simple_tooltip_parts_spec. unfold Spec.tooltip_lines.
    rewrite Hty. by destruct (decide _).
Qed.

Lemma simple_html_tooltip_composition_witness :
  SimpleHtml.tooltip_parts
    {| ext_type := "verb"; ext_text := "looked up";
       ext_attrs := [("type", "verb"); ("role", "谓语")];
       ext_pos := {| pos_start := Some 21; pos_end := Some 30 |} |} =
  ["verb"; "语法功能: 谓语"].
Proof.
  apply (proj1 (proj2 (proj2 (proj2 (simple_html_tooltip_composition
    {| ext_type := "verb"; ext_text := "looked up";
       ext_attrs := [("type", "verb"); ("role", "谓语")];
       ext_pos := {| pos_start := Some 21; pos_end := Some 30 |} |}))))).
  reflexivity.
Defined.

(** ** Grouping *)

Lemma group_step_lookup group_by grouped e key :
  group_step group_by grouped e !! key =
  if decide (group_key group_by e = key)
  then Some (default [] (grouped !! key) ++ [e])
  else grouped !! key.
Proof.
  unfold group_step. destruct (decide (group_key group_by e = key)) as [<-|Hne].
  - destruct (grouped !! group_key group_by e) as [l|] eqn:Hl.
    + by rewrite lookup_alter_eq, Hl.
    + by rewrite lookup_alter_eq, lookup_insert_eq.
  - destruct (grouped !! group_key group_by e) as [l|] eqn:Hl.
    + by rewrite lookup_alter_ne.
    + by rewrite lookup_alter_ne, lookup_insert_ne.
Qed.

Lemma format_result_lookup extractions group_by key :
  format_result_for_display extractions group_by !! key =
  match Spec.group group_by key extractions with
  | [] => None
  | g => Some g
  end.
Proof.
  unfold format_result_for_display, Spec.group.
  induction extractions as [|e extractions IH] using rev_ind; [done |].
  rewrite foldl_app. simpl. rewrite group_step_lookup, filter_app, IH.
  rewrite filter_cons, filter_nil.
  destruct (decide (group_key group_by e = key)) as [Heq|Hne].
  - destruct (filter _ extractions); done.
  - by rewrite app_nil_r.
Qed.

(** *** Records whose attributes are [None] *)

Lemma nullable_group_key group_by e :
  Nullable.group_key group_by (nullable_record e) = inr (group_key group_by e).
Proof.
  unfold Nullable.group_key, group_key. cbn.
  by destruct (String.eqb group_by "类型"), (String.eqb group_by "难度").
Qed.

Lemma nullable_group_step group_by grouped e :
  Nullable.group_step group_by (map nullable_record <$> grouped) (nullable_record e) =
  inr (map nullable_record <$> group_step group_by grouped e).
Proof.
  unfold Nullable.group_step, group_step. rewrite nullable_group_key. f_equal.
  apply map_eq. intros key. rewrite lookup_fmap.
  destruct (decide (group_key group_by e = key)) as [<-|Hne].
  - rewrite lookup_fmap.
    destruct (grouped !! group_key group_by e) as [g|] eqn:Hg; cbn.
    + rewrite !lookup_alter_eq, lookup_fmap, Hg. cbn. by rewrite map_app.
    + by rewrite !lookup_alter_eq, !lookup_insert_eq.
  - rewrite lookup_fmap.
    destruct (grouped !! group_key group_by e) as [g|] eqn:Hg; cbn.
    + by rewrite !lookup_alter_ne, lookup_fmap.
    + by rewrite !lookup_alter_ne, !lookup_insert_ne, lookup_fmap.
Qed.

(** On records whose attributes are a mapping, [format_result_for_display]
    is the function of the same name on such records. *)
Lemma nullable_format_result_for_display extractions group_by :
  Nullable.format_result_for_display (map nullable_record extractions) group_by =
  inr (map nullable_record <$> format_result_for_display extractions group_by).
Proof.
  unfold Nullable.format_result_for_display, format_result_for_display.
  induction extractions as [|e l IH] using rev_ind.
  - cbn. by rewrite fmap_empty.
  - rewrite map_app, !foldl_app, IH. cbn [map foldl]. apply nullable_group_step.
Qed.

(** Grouping by difficulty raises [AttributeError] as soon as one record
    has no attributes. *)
Lemma nullable_grouping_attribute_error extractions :
  Exists (fun r => Nullable.rec_attrs r = None) extractions ->
  Nullable.format_result_for_display extractions "难度" = inl Nullable.AttributeError.
Proof.
  unfold Nullable.format_result_for_display.
  generalize (∅ : gmap string (list Nullable.record)).
  induction extractions as [|r l IH]; intros m Hex; [by apply Exists_nil in Hex |].
  rewrite foldl_step.
  assert (Hstay : forall l',
    foldl (fun acc r =>
             match acc with
             | inr grouped => Nullable.group_step "难度" grouped r
             | inl err => inl err
             end) (inl Nullable.AttributeError) l' = inl Nullable.AttributeError).
  { induction l' as [|r' l' IHl]; [done | by rewrite foldl_step]. }
  unfold Nullable.group_step at 2, Nullable.group_key.
  change (String.eqb "难度" "类型") with false.
  change (String.eqb "难度" "难度") with true. cbv iota.
  destruct (Nullable.rec_attrs r) as [attrs|] eqn:Hr.
  - apply Exists_cons in Hex as [Hex|Hex]; [congruence |]. by apply IH.
  - apply Hstay.
Qed.

(** Whenever [format_result_for_display] returns, the group of a key is
    the list of the records that have this key, in the order of the
    input; a key that no record has is not in the mapping. *)
Lemma nullable_grouping_lookup records group_by grouped :
  Nullable.format_result_for_display records group_by = inr grouped ->
  forall key,
    grouped !! key =
    match filter (fun r => Nullable.group_key group_by r = inr key) records with
    | [] => None
    | g => Some g
    end.
Proof.
  unfold Nullable.format_result_for_display. revert grouped.
  induction records as [|r l IH] using rev_ind; intros grouped.
  - intros [= <-] key. by rewrite lookup_empty.
  - rewrite foldl_app. cbn [foldl].
    destruct (foldl _ _ l) as [err|grouped0]; [done |].
    specialize (IH grouped0 eq_refl).
    unfold Nullable.group_step.
    destruct (Nullable.group_key group_by r) as [err|k] eqn:Hk; [done |].
    intros [= <-] key. rewrite filter_app, filter_cons, filter_nil.
    destruct (decide (k = key)) as [->|Hne].
    + rewrite decide_True by done.
      destruct (grouped0 !! key) as [g|] eqn:Hg.
      * rewrite lookup_alter_eq, Hg. rewrite IH in Hg.
        destruct (filter _ l) as [|r0 g0]; [done |]. by injection Hg as <-.
      * rewrite lookup_alter_eq, lookup_insert_eq. rewrite IH in Hg.
        by destruct (filter _ l).
    + rewrite decide_False by congruence. rewrite app_nil_r, <- IH.
      destruct (grouped0 !! k).
      * by rewrite lookup_alter_ne.
      * by rewrite lookup_alter_ne, lookup_insert_ne.
Qed.

(** C6.  The record that [format_extractions] makes of an extraction
    without attributes has [None] under 属性, and grouping the records by
    difficulty raises [AttributeError] on it; grouping the same records
    by class returns the mapping. *)
Theorem grouping_by_level_raises_without_attributes :
  map Nullable.rec_attrs (Nullable.format_extractions Examples.no_attributes) = [None] /\
  Nullable.format_result_for_display
    (Nullable.format_extractions Examples.no_attributes) "难度"
    = inl Nullable.AttributeError /\
  Nullable.format_result_for_display
    (Nullable.format_extractions Examples.no_attributes) "类型"
    = inr {[ "verb" := Nullable.format_extractions Examples.no_attributes ]}.
Proof.
  split; [reflexivity |]. split.
  - apply nullable_grouping_attribute_error. by constructor.
  - vm_compute. reflexivity.
Qed.

Lemma group_key_other group_by e :
  group_by <> "类型" -> group_by <> "难度" -> group_key group_by e = "全部".
Proof.
  intros H1 H2. unfold group_key.
  destruct (String.eqb_spec group_by "类型"); [done |].
  by destruct (String.eqb_spec group_by "难度").
Qed.

(** C10 (as the code has it). For a [group_by] other than 类型 and 难度
    and a list with at least one record, [format_result_for_display]
    returns the mapping whose single key is 全部, bound to the whole
    input list in its order; for the empty list it returns the empty
    mapping.  It is a total function: no exception is raised. *)
Theorem unknown_grouping_single_bucket (extractions : list extraction)
    (group_by : string) :
  group_by <> "类型" -> group_by <> "难度" ->
  format_result_for_display extractions group_by =
  match extractions with
  | [] => ∅
  | _ :: _ => {[ "全部" := extractions ]}
  end.
Proof.
  intros H1 H2. apply map_eq. intros key. rewrite format_result_lookup.
  unfold Spec.group.
  assert (Hf : filter (fun e => group_key group_by e = key) extractions =
               if decide (key = "全部") then extractions else []).
  { induction extractions as [|e l IH]; [by destruct (decide _) |].
    rewrite filter_cons, IH, group_key_other by done.
    destruct (decide ("全部" = key)) as [<-|Hne]; [by rewrite decide_True |].
    destruct (decide (key = "全部")); [congruence | done]. }
  rewrite Hf. destruct (decide (key = "全部")) as [->|Hne].
  - destruct extractions; [done |]. by rewrite lookup_singleton_eq.
  - destruct extractions; [done |]. by rewrite lookup_singleton_ne.
Qed.

Lemma unknown_grouping_single_bucket_witness :
  format_result_for_display Examples.looked_up_twice "其他" =
  {[ "全部" := Examples.looked_up_twice ]}.
Proof.
  apply (unknown_grouping_single_bucket Examples.looked_up_twice "其他"); done.
Defined.

(** C10 (as stated) fails on the empty list: the mapping returned has no
    key 全部 at all, where the specification promises that key bound to the
    empty input list. *)
Lemma unknown_grouping_empty_list_has_no_bucket :
  format_result_for_display [] "其他" !! "全部" = None /\
  ({[ "全部" := [] ]} : gmap string (list extraction)) !! "全部" = Some [] /\
  dom (format_result_for_display [] "其他") = ∅.
Proof. split; [| split]; reflexivity. Qed.

(** ** Markup is not escaped *)

Lemma occurs_in_refl s : Spec.occurs_in s s.
Proof. exists EmptyString, EmptyString. simpl. by rewrite append_empty_r. Qed.

Lemma occurs_in_trans s1 s2 s3 :
  Spec.occurs_in s1 s2 -> Spec.occurs_in s2 s3 -> Spec.occurs_in s1 s3.
Proof.
  intros (a & b & ->) (c & d & ->). exists (c +:+ a), (b +:+ d).
  by rewrite !append_assoc.
Qed.

Lemma occurs_in_join_empty s l : s ∈ l -> Spec.occurs_in s (join_empty l).
Proof.
  induction l as [|x l IH]; [by intros ?%elem_of_nil |].
  intros [->|Hin]%elem_of_cons.
  - exists EmptyString, (join_empty l). reflexivity.
  - destruct (IH Hin) as (a & b & Hab). exists (x +:+ a), b.
    change (join_empty (x :: l)) with (x +:+ join_empty l).
    by rewrite Hab, !append_assoc.
Qed.

Lemma render_highlight_body e color body tt :
  Spec.occurs_in body (render_fragment (Highlight e color body tt)).
Proof.
  exists ("<span class=" +:+ dquote +:+ "tooltip-wrapper" +:+ dquote +:+
          " style=" +:+ dquote +:+ "background-color: " +:+ color +:+ "; " +:+
          "padding: 2px 4px; border-radius: 3px;" +:+ dquote +:+ ">"),
         ("<span class=" +:+ dquote +:+ "tooltip-text" +:+ dquote +:+ ">" +:+
          tt +:+ "</span>" +:+ "</span>").
  unfold render_fragment. by rewrite !append_assoc.
Qed.

Lemma render_highlight_tooltip e color body tt :
  Spec.occurs_in tt (render_fragment (Highlight e color body tt)).
Proof.
  exists ("<span class=" +:+ dquote +:+ "tooltip-wrapper" +:+ dquote +:+
          " style=" +:+ dquote +:+ "background-color: " +:+ color +:+ "; " +:+
          "padding: 2px 4px; border-radius: 3px;" +:+ dquote +:+ ">" +:+ body +:+
          "<span class=" +:+ dquote +:+ "tooltip-text" +:+ dquote +:+ ">"),
         ("</span>" +:+ "</span>").
  unfold render_fragment. by rewrite !append_assoc.
Qed.

Lemma tooltip_attr_value e k v :
  (k, v) ∈ ext_attrs e ->
  Spec.occurs_in k (colored_tooltip_html e) /\ Spec.occurs_in v (colored_tooltip_html e).
Proof.
  intros Hin. unfold colored_tooltip_html.
  destruct (ext_attrs e) as [|kv attrs] eqn:Hattrs; [by apply elem_of_nil in Hin |].
  rewrite <- Hattrs in *. clear kv attrs Hattrs.
  assert (Hline : tooltip_attr_line (k, v) ∈
            (["<strong>" +:+ ext_type e +:+ "</strong>"] ++
             ["<hr style='margin: 5px 0; border: 0; border-top: 1px solid rgba(255,255,255,0.3);'>"])
            ++ map tooltip_attr_line (ext_attrs e)).
  { apply elem_of_app. right. by apply (list_elem_of_fmap_2 tooltip_attr_line). }
  apply occurs_in_join_empty in Hline.
  split; (eapply occurs_in_trans; [| exact Hline]); unfold tooltip_attr_line; simpl.
  - exists "<div><span style='opacity:0.8'>", (":</span> " +:+ v +:+ "</div>").
    reflexivity.
  - exists ("<div><span style='opacity:0.8'>" +:+ k +:+ ":</span> "), "</div>".
    by rewrite !append_assoc.
Qed.

Lemma colored_loop_tooltips text color_map l parts pos :
  Forall (fun f => forall e color body tt,
            f = Highlight e color body tt -> tt = colored_tooltip_html e) parts ->
  Forall (fun f => forall e color body tt,
            f = Highlight e color body tt -> tt = colored_tooltip_html e)
    (foldl (colored_step text color_map) (parts, pos) l).1.
Proof.
  revert parts pos. induction l as [|sp l IH]; intros parts pos Hparts; [done |].
  rewrite foldl_step. destruct (renderable text sp) eqn:Hr.
  - rewrite colored_step_emit by done. apply IH.
    apply Forall_app. split.
    + destruct (pos <? span_start sp); [| done].
      apply Forall_app. split; [done |]. by apply Forall_singleton.
    + apply Forall_singleton. by intros e color body tt [= <- _ _ <-].
  - rewrite colored_step_skip by done. by apply IH.
Qed.

(** C9 (as the code has it). [create_colored_text] escapes nothing: the
    returned string is the concatenation of the fragments, a plain
    fragment is its slice of the source text as it is, the markup of a
    highlighted fragment contains [text[start:end]] as it is, and its
    tooltip contains every attribute key and value as they are.  When
    no record passes the filter the returned string is the source text
    itself. *)
Theorem colored_text_interpolates_verbatim text exts color_map :
  let parts := colored_parts text exts color_map in
  create_colored_text text exts color_map = join_empty (map render_fragment parts) /\
  (forall s, render_fragment (Plain s) = s) /\
  (forall f, f ∈ parts -> Spec.occurs_in (base_text f) (render_fragment f)) /\
  (forall e color body tt k v,
     Highlight e color body tt ∈ parts -> (k, v) ∈ ext_attrs e ->
     Spec.occurs_in k (render_fragment (Highlight e color body tt)) /\
     Spec.occurs_in v (render_fragment (Highlight e color body tt))) /\
  (omap colored_valid exts = [] -> create_colored_text text exts color_map = text).
Proof.
  cbv zeta. split; [done |]. split; [done |]. split; [| split].
  - intros [s|e color body tt] _; [apply occurs_in_refl | apply render_highlight_body].
  - intros e color body tt k v Hin Hkv.
    assert (Htt : tt = colored_tooltip_html e).
    { revert Hin. unfold colored_parts.
      destruct (omap colored_valid exts) as [|sp0 l0].
      { by intros ?%list_elem_of_singleton. }
      pose proof (colored_loop_tooltips text (default default_color_map color_map)
                    (sorted span_start (sp0 :: l0)) [] 0) as Hloop.
      destruct (foldl _ _ _) as [html_parts last_pos]. cbn [fst] in Hloop.
      intros Hin.
      assert (Hin' : Highlight e color body tt ∈ html_parts).
      { destruct (last_pos <? len text); [| done].
        apply elem_of_app in Hin as [Hin|Hin]; [done |].
        by apply list_elem_of_singleton in Hin. }
      eapply Forall_forall in Hloop; [| done | exact Hin'].
      by eapply Hloop. }
    subst tt. destruct (tooltip_attr_value e k v Hkv) as [Hk Hv].
    split; (eapply occurs_in_trans; [| apply render_highlight_tooltip]); done.
  - intros Hnone. unfold create_colored_text, colored_parts. rewrite Hnone.
    simpl. apply append_empty_r.
Qed.

Lemma colored_text_interpolates_verbatim_witness :
  create_colored_text "1 < 2" [Examples.mk "verb" 0 0] None = "1 < 2".
Proof.
  apply (colored_text_interpolates_verbatim "1 < 2" [Examples.mk "verb" 0 0] None).
  reflexivity.
Defined.

(** C9 (as stated) fails: the characters [<] and [&] of the source text
    reach the output as they are, where escaping would have produced
    character references; the same holds for the text of a highlighted
    span and for an attribute value in its tooltip. *)
Lemma colored_text_leaves_markup_unescaped :
  create_colored_text "1 < 2 & 3" [] None = "1 < 2 & 3" /\
  Spec.escape "1 < 2 & 3" = "1 &lt; 2 &amp; 3" /\
  create_colored_text "1 < 2 & 3" [] None <> Spec.escape "1 < 2 & 3" /\
  map base_text
    (colored_parts "a<b"
       [ {| ext_type := "verb"; ext_text := "<"; ext_attrs := [("role", "<i>")];
            ext_pos := {| pos_start := Some 1; pos_end := Some 2 |} |} ] None)
    = ["a"; "<"; "b"] /\
  create_colored_text "a<b"
       [ {| ext_type := "verb"; ext_text := "<"; ext_attrs := [("role", "<i>")];
            ext_pos := {| pos_start := Some 1; pos_end := Some 2 |} |} ] None
    = "a" +:+
      "<span class=" +:+ dquote +:+ "tooltip-wrapper" +:+ dquote +:+
      " style=" +:+ dquote +:+
      "background-color: #4ECDC4; padding: 2px 4px; border-radius: 3px;" +:+ dquote +:+
      "><" +:+
      "<span class=" +:+ dquote +:+ "tooltip-text" +:+ dquote +:+ ">" +:+
      "<strong>verb</strong>" +:+
      "<hr style='margin: 5px 0; border: 0; border-top: 1px solid rgba(255,255,255,0.3);'>" +:+
      "<div><span style='opacity:0.8'>role:</span> <i></div>" +:+
      "</span></span>" +:+ "b".
Proof.
  split; [reflexivity |]. split; [reflexivity |]. split; [by vm_compute |].
  split; vm_compute; reflexivity.
Qed.

(** ** The example of the specification

    Three spans that do not overlap: three highlighted fragments,
    separated by single spaces and followed by the full stop. *)

Example quick_brown_fox :
  map (fun f => (ext_type <$> highlighted f, base_text f))
      (colored_parts "The quick brown fox jumps over the lazy dog."
         [Examples.mk "subject" 0 19; Examples.mk "verb" 20 25;
          Examples.mk "adverbial" 26 43] None) =
    [ (Some "subject", "The quick brown fox"); (None, " ");
      (Some "verb", "jumps"); (None, " ");
      (Some "adverbial", "over the lazy dog"); (None, ".") ].
Proof. vm_compute. reflexivity. Qed.

(** ** Overlapping spans *)

(** In [create_colored_text] the cursor is advanced with [max], so it
    never moves backwards. *)
Lemma colored_step_cursor_monotone text color_map parts pos sp :
  pos <= (colored_step text color_map (parts, pos) sp).2.
Proof.
  unfold colored_step.
  destruct ((len text <=? span_start sp) || (len text <? span_end sp)
            || (span_end sp <=? span_start sp)); simpl; lia.
Qed.

Lemma colored_loop_cursor_monotone text color_map l parts pos :
  pos <= (foldl (colored_step text color_map) (parts, pos) l).2.
Proof.
  revert parts pos. induction l as [|sp l IH]; intros parts pos; [simpl; lia |].
  rewrite foldl_step.
  pose proof (colored_step_cursor_monotone text color_map parts pos sp) as Hstep.
  destruct (colored_step text color_map (parts, pos) sp) as [parts' pos'].
  specialize (IH parts' pos'). simpl in Hstep. lia.
Qed.

(** C1 (code at a failing input). On the sample document of
    [examples.py], whose spans overlap, the base text of the output of
    [create_colored_text] repeats the words that two spans cover: it is
    not the source text. *)
Theorem overlapping_spans_repeat_base_text :
  base_of (colored_parts Examples.combined_text
             (format_extractions Examples.combined) None) =
    "The talented student looked uplooked up the difficult vocabularyvocabulary in the dictionary." /\
  Examples.combined_text =
    "The talented student looked up the difficult vocabulary in the dictionary." /\
  len (base_of (colored_parts Examples.combined_text
                  (format_extractions Examples.combined) None)) = 93 /\
  len Examples.combined_text = 74.
Proof. repeat split; vm_compute; reflexivity. Qed.

(** C2 (code at a failing input). For the two records that annotate
    the words at [21 .. 30], [create_colored_text] emits two highlighted
    fragments for that range, one per record, in input order. *)
Theorem duplicate_span_is_highlighted_twice :
  map (fun f => (ext_type <$> highlighted f, base_text f))
      (colored_parts Examples.combined_text Examples.looked_up_twice None) =
    [ (None, "The talented student ");
      (Some "verb", "looked up");
      (Some "phrasal_verb", "looked up");
      (None, " the difficult vocabulary in the dictionary.") ].
Proof. vm_compute. reflexivity. Qed.

(** C3 (code at a failing input). In [create_simple_html_visualization]
    the cursor is set to the end of the span, not to the maximum: after
    a span [0 .. 10] and a span [2 .. 4] inside it the cursor stands at
    4, and the characters from 4 on are emitted a second time.  In both
    renderers the inner span is highlighted in full although the outer
    one has consumed its region. *)
Theorem simple_html_cursor_moves_backwards :
  (SimpleHtml.run_loop "abcdefghij" [Span 0 10 (Examples.mk "subject" 0 10)]).1.2 = 10 /\
  (SimpleHtml.run_loop "abcdefghij"
     [Span 0 10 (Examples.mk "subject" 0 10); Span 2 4 (Examples.mk "verb" 2 4)]).1.2 = 4 /\
  map SimpleHtml.base_text
    (SimpleHtml.text_container_parts "abcdefghij"
       [Examples.mk "subject" 0 10; Examples.mk "verb" 2 4]) =
    ["abcdefghij"; "cd"; "efghij"] /\
  map (fun f => (ext_type <$> highlighted f, base_text f))
    (colored_parts "abcdefghij"
       [Examples.mk "subject" 0 10; Examples.mk "verb" 2 4] None) =
    [(Some "subject", "abcdefghij"); (Some "verb", "cd")].
Proof. repeat split; vm_compute; reflexivity. Qed.

(** ** Floats: the error of one rounding *)

Section FloatFacts.
Import PyFloat.

Lemma rne_div_spec p q :
  0 <= p -> 0 < q ->
  0 <= rne_div p q /\ 2 * Z.abs (rne_div p q * q - p) <= q.
Proof.
  intros Hp Hq. unfold rne_div.
  pose proof (Z.div_mod p q ltac:(lia)) as Hdm.
  pose proof (Z.mod_pos_bound p q Hq) as Hr.
  pose proof (Z.div_pos p q Hp Hq) as Hd.
  destruct (2 * (p mod q) <? q) eqn:H1;
    [| destruct (q <? 2 * (p mod q)) eqn:H2; [| destruct (Z.even (p / q))]];
    split; try lia; nia.
Qed.

Lemma binade_spec p q :
  0 < q -> 2 ^ 52 * q <= p ->
  0 <= binade p q /\ 2 ^ (binade p q + 52) * q <= p.
Proof.
  intros Hq Hp. unfold binade.
  assert (H0 : 0 < p) by lia.
  pose proof (Z.log2_spec p H0) as [Hp1 Hp2].
  pose proof (Z.log2_spec q Hq) as [Hq1 Hq2].
  pose proof (Z.log2_nonneg p) as Hlp. pose proof (Z.log2_nonneg q) as Hlq.
  set (k0 := Z.log2 p - Z.log2 q) in *.
  destruct (k0 <? 53) eqn:Hk0; [simpl; split; [lia | exact Hp] |].
  assert (Hk : 53 <= k0) by lia.
  destruct (q * 2 ^ k0 <=? p) eqn:Hcmp.
  - rewrite Z.max_r by lia. split; [lia |].
    replace (k0 - 52 + 52) with k0 by lia. lia.
  - rewrite Z.max_r by lia. split; [lia |].
    replace (k0 - 1 - 52 + 52) with (k0 - 1) by lia.
    assert (Hpow : 2 ^ (k0 - 1) * 2 ^ Z.succ (Z.log2 q) = 2 ^ Z.log2 p).
    { rewrite <- Z.pow_add_r by lia. f_equal. lia. }
    assert (Hpos : 0 < 2 ^ (k0 - 1)) by (apply Z.pow_pos_nonneg; lia).
    nia.
Qed.

Lemma round_finite neg p q :
  0 < q -> 2 ^ 52 * q <= p -> p < 2 ^ 2097 * q ->
  exists u, round neg p q = Finite neg u /\ 0 <= u /\
            2 ^ 53 * Z.abs (u * q - p) <= p.
Proof.
  intros Hq Hlo Hhi. unfold round.
  destruct (binade_spec p q Hq Hlo) as [Hk Hbin].
  set (k := binade p q) in *.
  assert (Hpk : 0 < 2 ^ k) by (apply Z.pow_pos_nonneg; lia).
  destruct (rne_div_spec p (q * 2 ^ k) ltac:(lia) ltac:(nia)) as [Hd Herr].
  set (d := rne_div p (q * 2 ^ k)) in *.
  assert (Hsplit : 2 ^ (k + 52) = 2 ^ k * 2 ^ 52) by (apply Z.pow_add_r; lia).
  assert (Hbound : 2 ^ 53 * Z.abs (d * 2 ^ k * q - p) <= p).
  { replace (d * 2 ^ k * q) with (d * (q * 2 ^ k)) by ring.
    change (2 ^ 53) with (2 ^ 52 * 2). nia. }
  assert (Hu : d * 2 ^ k < overflow_threshold).
  { unfold overflow_threshold. change (2 ^ 2098) with (2 * 2 ^ 2097).
    assert (d * 2 ^ k * q <= 2 * p) by lia. nia. }
  replace (overflow_threshold <=? d * 2 ^ k) with false by lia.
  exists (d * 2 ^ k). repeat split; [nia | exact Hbound].
Qed.

End FloatFacts.

(** ** Statistics *)

(** The three roundings of the coverage computation, put together:
    [u1], [u2] and [tenths] are the quotient, the product with 100 and
    the printed number of tenths, [o] is the unit and [e] is [2^53]. *)
Lemma coverage_error_bound (o n a u1 u2 tenths : Z) :
  0 < o -> 0 < n -> 0 <= a -> 0 <= u1 ->
  2 ^ 53 * Z.abs (u1 * n - a * o) <= a * o ->
  2 ^ 53 * Z.abs (u2 * o - u1 * (100 * o)) <= u1 * (100 * o) ->
  2 * Z.abs (tenths * o - 10 * u2) <= o ->
  2 ^ 51 * Z.abs (2 * tenths * n - 2000 * a) <= 2 ^ 51 * n + 2000 * a.
Proof.
  intros Ho Hn Ha Hu1 H1 H2 H3.
  change (2 ^ 53) with (4 * 2 ^ 51) in *.
  set (F := 2 ^ 51) in *. assert (HF : 0 < F) by done.
  set (X := u1 * n - a * o) in *.
  set (Y := u2 - 100 * u1).
  set (W := tenths * o - 10 * u2) in *.
  assert (HY : 4 * F * Z.abs Y <= 100 * u1).
  { apply (Z.mul_le_mono_pos_r _ _ o Ho).
    replace (4 * F * Z.abs Y * o) with (4 * F * Z.abs (Y * o))
      by (rewrite Z.abs_mul, (Z.abs_eq o) by lia; ring).
    replace (Y * o) with (u2 * o - u1 * (100 * o)) by (unfold Y; ring).
    lia. }
  assert (HG : (2 * tenths * n - 2000 * a) * o = 2 * n * W + 20 * n * Y + 2000 * X)
    by (unfold W, Y, X; ring).
  assert (Hnu : 4 * F * (n * u1) <= (4 * F + 1) * (a * o)) by (unfold X in H1; lia).
  apply (Z.mul_le_mono_pos_r _ _ (4 * (4 * F) * o) ltac:(lia)).
  replace (F * Z.abs (2 * tenths * n - 2000 * a) * (4 * (4 * F) * o))
    with (4 * F * (4 * F) * Z.abs ((2 * tenths * n - 2000 * a) * o))
    by (rewrite Z.abs_mul, (Z.abs_eq o) by lia; ring).
  rewrite HG.
  assert (Habs : Z.abs (2 * n * W + 20 * n * Y + 2000 * X)
                 <= 2 * n * Z.abs W + 20 * n * Z.abs Y + 2000 * Z.abs X).
  { pose proof (Z.abs_triangle (2 * n * W + 20 * n * Y) (2000 * X)).
    pose proof (Z.abs_triangle (2 * n * W) (20 * n * Y)).
    rewrite !Z.abs_mul in *.
    rewrite (Z.abs_eq 2), (Z.abs_eq 20), (Z.abs_eq 2000), (Z.abs_eq n) in * by lia.
    lia. }
  assert (HnW : 2 * n * Z.abs W <= n * o) by nia.
  assert (HnY : 4 * F * (20 * n * Z.abs Y) <= 2000 * (n * u1)) by nia.
  nia.
Qed.

Lemma round_zero neg q : 0 < q -> PyFloat.round neg 0 q = PyFloat.Finite neg 0.
Proof.
  intros Hq. unfold PyFloat.round, PyFloat.binade.
  pose proof (Z.log2_nonneg q) as Hlq.
  replace (Z.log2 0 - Z.log2 q <? 53) with true by (simpl Z.log2; lia).
  unfold PyFloat.rne_div. replace (q * 2 ^ 0) with q by lia.
  rewrite Z.div_0_l, Z.mod_0_l by lia.
  replace (2 * 0 <? q) with true by lia. reflexivity.
Qed.

Lemma percent_of_format neg u :
  PyFloat.format_1f (PyFloat.Finite neg u) +:+ "%" =
  Spec.percent_of_tenths neg (PyFloat.rne_div (10 * u) PyFloat.one).
Proof.
  unfold PyFloat.format_1f, Spec.percent_of_tenths. by rewrite !append_assoc.
Qed.

Lemma coverage_nonzero_text total txt :
  0 < len txt -> len txt < 2 ^ 1000 -> Z.abs total < 2 ^ 1000 ->
  exists tenths,
    coverage total txt = Ok (Spec.percent_of_tenths (total <? 0) tenths) /\
    0 <= tenths /\
    2 ^ 51 * Z.abs (2 * tenths * len txt - 2000 * Z.abs total)
      <= 2 ^ 51 * len txt + 2000 * Z.abs total.
Proof.
  intros Hn Hnb Hab. unfold coverage, int_truediv.
  set (n := len txt) in *.
  replace (0 <? n) with true by lia. replace (n =? 0) with false by lia.
  replace (n <? 0) with false by lia. rewrite xorb_false_r.
  rewrite (Z.abs_eq n) by lia.
  assert (Hone : PyFloat.one = 2 ^ 1074) by reflexivity.
  assert (Ho : 0 < PyFloat.one) by (rewrite Hone; lia).
  destruct (decide (total = 0)) as [->|Hnz].
  { simpl Z.abs. rewrite Z.mul_0_l, round_zero by done.
    unfold PyFloat.mul, PyFloat.of_small_int. rewrite Z.mul_0_l, round_zero by done.
    rewrite percent_of_format. exists 0. split; [reflexivity | lia]. }
  set (a := Z.abs total) in *.
  assert (Ha : 1 <= a) by lia.
  assert (Hao : PyFloat.one <= a * PyFloat.one) by nia.
  destruct (round_finite (total <? 0) (a * PyFloat.one) n) as (u1 & -> & Hu1 & H1).
  { lia. } { rewrite Hone in *. lia. }
  { assert (a * PyFloat.one < 2 ^ 1000 * PyFloat.one) by nia.
    assert (2 ^ 1000 * PyFloat.one <= 2 ^ 2097 * 1) by (rewrite Hone; lia). nia. }
  assert (Hlo1 : 2 * (u1 * n) >= a * PyFloat.one) by lia.
  assert (Hhi1 : u1 * n <= 2 * (a * PyFloat.one)) by lia.
  unfold PyFloat.mul, PyFloat.of_small_int.
  change (100 <? 0) with false. change (Z.abs 100) with 100. rewrite xorb_false_r.
  destruct (round_finite (total <? 0) (u1 * (100 * PyFloat.one)) PyFloat.one)
    as (u2 & -> & Hu2 & H2).
  { lia. }
  { assert (2 ^ 52 <= 100 * u1); [| nia].
    assert (2 ^ 53 * n <= 2 * (u1 * n)); [| nia].
    rewrite Hone in *. lia. }
  { assert (100 * u1 < 2 ^ 2097); [| nia].
    assert (u1 <= u1 * n) by nia.
    assert (a * PyFloat.one < 2 ^ 1000 * PyFloat.one) by nia.
    rewrite Hone in *. lia. }
  rewrite percent_of_format.
  destruct (rne_div_spec (10 * u2) PyFloat.one ltac:(lia) Ho) as [Ht H3].
  exists (PyFloat.rne_div (10 * u2) PyFloat.one). split; [done |]. split; [done |].
  apply (coverage_error_bound PyFloat.one n a u1 u2); solve [done | lia].
Qed.

(** ** Statistics on data with [None] *)

Lemma nullable_format_extractions d :
  Nullable.format_extractions (nullable_document d) =
  map nullable_record (format_extractions d).
Proof.
  unfold Nullable.format_extractions, format_extractions, nullable_document.
  cbn [Nullable.extractions].
  induction (extractions d) as [|x l IH] using rev_ind; [done |].
  rewrite map_app, !foldl_app. cbn [map foldl]. rewrite IH, map_app. f_equal.
  unfold Nullable.format_extraction, format_extraction, nullable_record,
    nullable_extraction. cbn.
  by destruct (char_interval x).
Qed.

Lemma nullable_total_chars_step acc l :
  foldl (fun acc e =>
           match acc with
           | inr total => Nullable.add_chars total e
           | inl err => inl err
           end) (inr acc) l =
  if forallb Nullable.integer_offsets l
  then inr (acc + Nullable.interval_chars l)
  else inl Nullable.TypeError.
Proof.
  revert acc. induction l as [|e l IH]; intros acc.
  - cbn. f_equal. lia.
  - rewrite foldl_step. cbn [forallb].
    unfold Nullable.add_chars, Nullable.integer_offsets at 1, Nullable.interval_chars.
    cbn [omap list_omap]. unfold Nullable.interval_length at 1.
    destruct (Nullable.char_interval e) as [[[s|] [t|]]|]; cbn.
    + rewrite IH. destruct (forallb _ l); [| done]. f_equal.
      unfold Nullable.interval_chars. lia.
    + clear IH. induction l as [|e' l IHl]; [done | by rewrite foldl_step].
    + clear IH. induction l as [|e' l IHl]; [done | by rewrite foldl_step].
    + clear IH. induction l as [|e' l IHl]; [done | by rewrite foldl_step].
    + rewrite IH. destruct (forallb _ l); [| done]. f_equal.
      unfold Nullable.interval_chars. lia.
Qed.

Lemma nullable_total_chars l :
  Nullable.total_chars l =
  if forallb Nullable.integer_offsets l
  then inr (Nullable.interval_chars l)
  else inl Nullable.TypeError.
Proof.
  unfold Nullable.total_chars. rewrite nullable_total_chars_step.
  by destruct (forallb _ l).
Qed.

Lemma nullable_integer_offsets l :
  forallb Nullable.integer_offsets (map nullable_extraction l) = true.
Proof.
  induction l as [|x l IH]; [done |]. cbn [map forallb]. rewrite IH, andb_true_r.
  unfold Nullable.integer_offsets, nullable_extraction. cbn.
  by destruct (char_interval x).
Qed.

Lemma nullable_interval_chars l :
  Nullable.interval_chars (map nullable_extraction l) = total_chars l.
Proof.
  unfold Nullable.interval_chars, total_chars.
  enough (forall acc,
    foldl add_chars acc l =
    acc + foldr Z.add 0 (omap Nullable.interval_length (map nullable_extraction l)))
    as H by (rewrite H; lia).
  induction l as [|e l IH]; intros acc; [simpl; lia |].
  rewrite foldl_step, IH. unfold add_chars. cbn [map omap list_omap].
  unfold Nullable.interval_length at 2, nullable_extraction at 2. cbn.
  destruct (char_interval e); simpl; lia.
Qed.

Lemma nullable_count_types l :
  foldl Nullable.count_type ∅ (map nullable_extraction l) = foldl count_type ∅ l.
Proof.
  generalize (∅ : gmap string Z).
  induction l as [|x l IH]; intros m; [done |].
  cbn [map]. rewrite !foldl_step. apply IH.
Qed.

(** On a document without [None], [get_statistics] is the function of
    the same name on the data without [None]. *)
Lemma nullable_get_statistics d :
  Nullable.get_statistics (nullable_document d) = nullable_outcome (get_statistics d).
Proof.
  unfold Nullable.get_statistics, get_statistics, nullable_document.
  cbn [Nullable.extractions Nullable.text].
  rewrite nullable_total_chars, nullable_integer_offsets, nullable_interval_chars,
    nullable_count_types, length_map.
  by destruct (coverage _ _).
Qed.

(** C5.  For a document in which every interval has two integers as
    offsets, the coverage entry of [get_statistics] is computed from
    the sum of [end - start] over all the extractions that carry an
    interval, whether or not the offsets lie in the text and in order,
    and the length of the text.  For an empty text it is the string
    [0%].  Otherwise it is a decimal with one digit after the point
    followed by the percent sign, and the number of tenths printed is
    the nearest one to [1000 * sum / len], up to the two roundings of
    the float arithmetic: the printed number differs from
    [100 * sum / len] by at most [1/20] plus [2^-51] times that ratio.
    A single span [(0, 5)] over a text of 10 characters gives [50.0%].
    The bound is stated for magnitudes below [2^1000], where the float
    arithmetic neither overflows nor leaves the normal range. *)
Theorem coverage_is_percentage_of_interval_lengths
    (result : Nullable.AnnotatedDocument) :
  forallb Nullable.integer_offsets (Nullable.extractions result) = true ->
  let total := Nullable.interval_chars (Nullable.extractions result) in
  let n := len (Nullable.text result) in
  Nullable.total_chars (Nullable.extractions result) = inr total /\
  (n = 0 ->
   exists st, Nullable.get_statistics result = inr st /\ stat_coverage st = "0%") /\
  (0 < n -> n < 2 ^ 1000 -> Z.abs total < 2 ^ 1000 ->
   exists st tenths,
     Nullable.get_statistics result = inr st /\
     stat_coverage st = Spec.percent_of_tenths (total <? 0) tenths /\
     0 <= tenths /\
     2 ^ 51 * Z.abs (2 * tenths * n - 2000 * Z.abs total)
       <= 2 ^ 51 * n + 2000 * Z.abs total) /\
  (forall x,
     Nullable.extractions result = [x] ->
     Nullable.char_interval x =
       Some {| Nullable.start_pos := Some 0; Nullable.end_pos := Some 5 |} ->
     n = 10 ->
     exists st, Nullable.get_statistics result = inr st /\ stat_coverage st = "50.0%").
Proof.
  intros Hint. cbv zeta.
  assert (Htot : Nullable.total_chars (Nullable.extractions result) =
                 inr (Nullable.interval_chars (Nullable.extractions result)))
    by (by rewrite nullable_total_chars, Hint).
  split; [exact Htot |]. split; [| split].
  - intros Hn. unfold Nullable.get_statistics. rewrite Htot.
    unfold coverage. rewrite Hn.
    change (0 <? 0) with false. cbv iota. eexists. split; reflexivity.
  - intros Hn Hnb Hab.
    destruct (coverage_nonzero_text _ _ Hn Hnb Hab) as (tenths & Hcov & Ht & Hb).
    unfold Nullable.get_statistics. rewrite Htot, Hcov.
    eexists _, tenths. split; [reflexivity |]. split; [reflexivity |]. done.
  - intros x Hx Hci Hn. unfold Nullable.get_statistics. rewrite Htot.
    assert (Hcov : coverage (Nullable.interval_chars (Nullable.extractions result))
                     (Nullable.text result) = Ok "50.0%").
    { rewrite Hx. unfold Nullable.interval_chars, Nullable.interval_length.
      cbn [omap list_omap]. rewrite Hci. cbn [Nullable.start_pos Nullable.end_pos].
      unfold coverage. rewrite Hn. vm_compute. reflexivity. }
    rewrite Hcov. eexists. split; reflexivity.
Qed.

Lemma coverage_is_percentage_of_interval_lengths_witness :
  exists st,
    Nullable.get_statistics Examples.half_covered = inr st /\
    stat_coverage st = "50.0%".
Proof.
  apply (proj2 (proj2 (proj2 (coverage_is_percentage_of_interval_lengths
    Examples.half_covered eq_refl))) _ eq_refl eq_refl eq_refl).
Defined.

(** C5 (as stated) fails: [get_statistics] does not look at the validity
    of the offsets.  Over a text of ten characters, a span [(5, 2)] is
    counted as [-3] characters and a span [(0, 20)] as [20], so that the
    coverage printed is [-30.0%] and [200.0%], where the sum over the
    spans with valid offsets is [0] in both cases, which would print as
    [0.0%]. *)
Lemma coverage_counts_spans_without_valid_offsets :
  (exists st,
     Nullable.get_statistics Examples.reversed_span = inr st /\
     stat_coverage st = "-30.0%") /\
  (exists st,
     Nullable.get_statistics Examples.overlong_span = inr st /\
     stat_coverage st = "200.0%") /\
  Spec.valid_covered_chars (Nullable.text Examples.reversed_span)
    (Nullable.extractions Examples.reversed_span) = 0 /\
  Spec.valid_covered_chars (Nullable.text Examples.overlong_span)
    (Nullable.extractions Examples.overlong_span) = 0 /\
  coverage 0 "0123456789" = Ok "0.0%".
Proof.
  split; [| split; [| split; [| split]]].
  - eexists. split; [vm_compute; reflexivity | reflexivity].
  - eexists. split; [vm_compute; reflexivity | reflexivity].
  - reflexivity.
  - reflexivity.
  - vm_compute. reflexivity.
Qed.

(** ** The inline renderer: order of the highlighted fragments *)

Lemma omap_colored_valid_of_valid text (exts : list extraction) :
  map span_ext (omap colored_valid (filter (Spec.valid_span text) exts)) =
  filter (Spec.valid_span text) exts.
Proof.
  by rewrite <- omap_colored_valid_filter, valid_spans_renderable.
Qed.

Lemma colored_highlighted_sorted text exts color_map :
  omap highlighted (colored_parts text exts color_map) =
  map span_ext
    (sorted span_start (omap colored_valid (filter (Spec.valid_span text) exts))).
Proof.
  unfold colored_parts.
  set (cm := default default_color_map color_map).
  pose proof (omap_colored_valid_filter text exts) as Hfil.
  destruct (omap colored_valid exts) as [|sp0 l0] eqn:Hom.
  { rewrite <- Hfil. reflexivity. }
  rewrite <- Hom. clear sp0 l0 Hom Hfil.
  pose proof (colored_loop_highlighted text cm
                (sorted span_start (omap colored_valid exts)) [] 0) as Hhl.
  destruct (foldl _ _ _) as [html_parts last_pos]. cbn [fst] in Hhl.
  assert (Hparts : omap highlighted
            (if last_pos <? len text
             then html_parts ++ [Plain (slice_from text last_pos)]
             else html_parts) = omap highlighted html_parts).
  { destruct (last_pos <? len text); [| done]. by rewrite omap_app, app_nil_r. }
  rewrite Hparts, Hhl. simpl.
  by rewrite filter_sorted, omap_colored_valid_filter.
Qed.

Lemma span_start_of_valid (sp : span) :
  colored_valid (span_ext sp) = Some sp ->
  pos_start (ext_pos (span_ext sp)) = Some (span_start sp).
Proof.
  unfold colored_valid, offsets.
  destruct (pos_start (ext_pos (span_ext sp))) as [s|]; [| done].
  destruct (pos_end (ext_pos (span_ext sp))) as [t|]; [| done].
  destruct ((0 <=? s) && (s <? t)); [| done]. by intros [= <-].
Qed.

Lemma filter_start_fmap s (l : list span) :
  Forall (fun sp => colored_valid (span_ext sp) = Some sp) l ->
  filter (fun e => pos_start (ext_pos e) = Some s) (map span_ext l) =
  map span_ext (filter (fun sp => span_start sp = s) l).
Proof.
  induction 1 as [|sp l Hsp Hl IH]; [done |].
  cbn [map]. rewrite !filter_cons, IH.
  rewrite (span_start_of_valid sp Hsp).
  destruct (decide (Some (span_start sp) = Some s)) as [[= Heq]|Hne];
    destruct (decide (span_start sp = s)) as [Heq'|Hne']; try done.
  congruence.
Qed.

(** The highlighted fragments of [create_colored_text] stand in
    ascending order of their start offset, and fragments with the same
    start offset stand in the order of the input list. *)
Theorem colored_text_highlights_in_start_order text exts color_map :
  let hl := omap highlighted (colored_parts text exts color_map) in
  StronglySorted
    (fun a b => exists s t, pos_start (ext_pos a) = Some s /\
                            pos_start (ext_pos b) = Some t /\ s <= t) hl /\
  (forall s,
     filter (fun e => pos_start (ext_pos e) = Some s) hl =
     filter (fun e => pos_start (ext_pos e) = Some s)
            (filter (Spec.valid_span text) exts)).
Proof.
  cbv zeta. rewrite colored_highlighted_sorted.
  set (l := omap colored_valid (filter (Spec.valid_span text) exts)).
  assert (Hok : Forall (fun sp => colored_valid (span_ext sp) = Some sp)
                       (sorted span_start l)).
  { apply Forall_forall. intros sp Hsp. rewrite sorted_perm in Hsp.
    pose proof (omap_colored_valid_ok (filter (Spec.valid_span text) exts)) as H.
    by eapply Forall_forall in H. }
  split.
  - pose proof (sorted_ordered span_start l) as Hsorted.
    induction Hsorted as [|sp l' Hl' IH Hle]; [constructor |].
    apply Forall_cons in Hok as [Hsp Hok]. cbn [map]. constructor; [by apply IH |].
    apply Forall_fmap, Forall_forall. intros sp' Hin.
    eapply Forall_forall in Hle; [| exact Hin].
    eapply Forall_forall in Hok; [| exact Hin].
    exists (span_start sp), (span_start sp').
    by rewrite !span_start_of_valid.
  - intros s. rewrite filter_start_fmap by done.
    rewrite sorted_stable.
    rewrite <- filter_start_fmap by apply omap_colored_valid_ok.
    unfold l. by rewrite omap_colored_valid_of_valid.
Qed.

(** ** The inline renderer: no character is left out *)

Lemma chars_app s1 s2 :
  list_ascii_of_string (s1 +:+ s2) = list_ascii_of_string s1 ++ list_ascii_of_string s2.
Proof.
  induction s1 as [|c s1 IH]; [done |].
  rewrite append_cons. simpl. by rewrite IH.
Qed.

Lemma drop_drop a b s : PyStr.drop a (PyStr.drop b s) = PyStr.drop (b + a) s.
Proof.
  revert s. induction b as [|b IH]; intros s; [by rewrite drop_zero |].
  destruct s as [|c s]; [by destruct a |]. apply IH.
Qed.

Lemma slice_prefix s b :
  0 <= b <= len s -> slice s 0 b = PyStr.take (Z.to_nat b) s.
Proof.
  intros Hb. rewrite slice_in_range by lia. simpl Z.to_nat.
  by rewrite Nat.sub_0_r, drop_zero.
Qed.

Lemma slice_app s a b c :
  0 <= a <= b -> b <= c <= len s ->
  slice s a b +:+ slice s b c = slice s a c.
Proof.
  intros Hab Hbc. rewrite !slice_in_range by lia.
  replace (PyStr.drop (Z.to_nat b) s)
    with (PyStr.drop (Z.to_nat b - Z.to_nat a) (PyStr.drop (Z.to_nat a) s))
    by (rewrite drop_drop; f_equal; lia).
  replace (Z.to_nat c - Z.to_nat b)%nat
    with ((Z.to_nat c - Z.to_nat a) - (Z.to_nat b - Z.to_nat a))%nat by lia.
  apply take_take_drop. lia.
Qed.

Lemma chars_slice_suffix s a b c :
  0 <= a <= b -> b <= c <= len s ->
  list_ascii_of_string (slice s b c) `sublist_of` list_ascii_of_string (slice s a c).
Proof.
  intros Hab Hbc. rewrite <- (slice_app s a b c) by lia.
  rewrite chars_app. apply sublist_inserts_l. done.
Qed.

Lemma colored_loop_keeps_text text color_map l parts pos :
  0 <= pos <= len text ->
  list_ascii_of_string (slice text 0 pos) `sublist_of`
    list_ascii_of_string (base_of parts) ->
  Forall (fun sp => 0 <= span_start sp) l ->
  let st := foldl (colored_step text color_map) (parts, pos) l in
  0 <= st.2 <= len text /\
  list_ascii_of_string (slice text 0 st.2) `sublist_of`
    list_ascii_of_string (base_of st.1).
Proof.
  revert parts pos. induction l as [|sp l IH]; intros parts pos Hpos Hsub Hall;
    [done |].
  cbv zeta. rewrite foldl_step. apply Forall_cons in Hall as [H0 Hall].
  destruct (renderable text sp) eqn:Hr; [| rewrite colored_step_skip by done; by apply IH].
  rewrite colored_step_emit by done.
  unfold renderable in Hr. apply negb_true_iff, orb_false_iff in Hr as [Hr H3].
  apply orb_false_iff in Hr as [H1 H2].
  apply IH; [lia | | done].
  rewrite base_of_app. unfold base_of at 2. simpl. rewrite append_empty_r.
  destruct (pos <? span_start sp) eqn:Hlt.
  - rewrite Z.max_r by lia. rewrite base_of_app. unfold base_of at 2. simpl.
    rewrite append_empty_r.
    rewrite <- (slice_app text 0 (span_start sp) (span_end sp)) by lia.
    rewrite <- (slice_app text 0 pos (span_start sp)) by lia.
    rewrite !chars_app. apply sublist_app; [| done].
    apply sublist_app; done.
  - destruct (Z.max_spec pos (span_end sp)) as [[Hm ->]|[Hm ->]].
    + rewrite <- (slice_app text 0 pos (span_end sp)) by lia.
      rewrite !chars_app. apply sublist_app; [done |].
      apply chars_slice_suffix; lia.
    + rewrite chars_app. by apply sublist_inserts_r.
Qed.

(** [create_colored_text] leaves no character of the source text out,
    whatever the spans: the source text is a subsequence of the base
    text of the output. *)
Theorem colored_text_omits_no_character text exts color_map :
  list_ascii_of_string text `sublist_of`
    list_ascii_of_string (base_of (colored_parts text exts color_map)).
Proof.
  unfold colored_parts.
  set (cm := default default_color_map color_map).
  destruct (omap colored_valid exts) as [|sp0 l0] eqn:Hom.
  { unfold base_of. simpl. by rewrite append_empty_r. }
  rewrite <- Hom. clear sp0 l0 Hom.
  assert (Hb : Forall (fun sp => 0 <= span_start sp)
                 (sorted span_start (omap colored_valid exts))).
  { apply Forall_forall. intros sp Hsp. rewrite sorted_perm in Hsp.
    pose proof (omap_colored_valid_bounds exts) as H.
    eapply Forall_forall in H; [| exact Hsp]. simpl in H. lia. }
  pose proof (len_nonneg text) as Hlen.
  pose proof (colored_loop_keeps_text text cm _ [] 0 ltac:(lia)
                ltac:(rewrite slice_prefix by lia; apply sublist_nil_l) Hb) as [Hpos Hsub].
  destruct (foldl _ _ _) as [html_parts last_pos]. simpl in Hpos, Hsub.
  destruct (last_pos <? len text) eqn:Hlt.
  - rewrite base_of_app. unfold base_of at 2. simpl. rewrite append_empty_r.
    rewrite <- (take_drop (Z.to_nat last_pos) text) at 1.
    rewrite !chars_app. apply sublist_app.
    + by rewrite <- slice_prefix by lia.
    + by rewrite slice_from_in_range by lia.
  - replace last_pos with (len text) in Hsub by lia.
    rewrite slice_prefix in Hsub by lia.
    unfold len in Hsub. by rewrite Nat2Z.id, take_all in Hsub.
Qed.

(** ** The standalone renderer and the inline renderer agree *)

Lemma simple_valid_colored_valid text (exts : list extraction) :
  omap (SimpleHtml.valid text) exts =
  omap colored_valid (filter (Spec.valid_span text) exts).
Proof.
  induction exts as [|e exts IH]; [done |].
  rewrite filter_cons. cbn [omap list_omap]. rewrite IH.
  unfold SimpleHtml.valid, Spec.valid_span, offsets.
  destruct (pos_start (ext_pos e)) as [s|] eqn:Hs, (pos_end (ext_pos e)) as [t|] eqn:Ht;
    simpl; try done.
  destruct (0 <=? s) eqn:H0, (s <? t) eqn:H1, (t <=? len text) eqn:H2; simpl; try done.
  cbn [omap list_omap]. unfold colored_valid, offsets. by rewrite Hs, Ht, H0, H1.
Qed.

Lemma simple_highlighted_sorted text exts :
  omap simple_highlighted (SimpleHtml.text_container_parts text exts) =
  map span_ext (sorted span_start (omap (SimpleHtml.valid text) exts)).
Proof.
  unfold SimpleHtml.text_container_parts, SimpleHtml.run_loop.
  destruct (omap (SimpleHtml.valid text) exts) as [|sp0 l0] eqn:Hom; [done |].
  rewrite <- Hom. clear sp0 l0 Hom.
  pose proof (simple_loop_highlighted text
                (sorted span_start (omap (SimpleHtml.valid text) exts)) [] 0 0) as Hhl.
  destruct (foldl _ _ _) as [[html_parts last_pos] i]. cbn [fst] in Hhl.
  destruct (last_pos <? len text); [| done].
  by rewrite omap_app, app_nil_r.
Qed.

(** On records whose attributes are a mapping, which are the records
    of the type [extraction], both renderers highlight the same
    records, in the same order. *)
Theorem renderers_highlight_same_records text exts color_map :
  omap simple_highlighted (SimpleHtml.text_container_parts text exts) =
  omap highlighted (colored_parts text exts color_map).
Proof.
  by rewrite simple_highlighted_sorted, colored_highlighted_sorted,
       simple_valid_colored_valid.
Qed.

(** ** The standalone renderer: coverage of the text *)

Lemma simple_valid_bounds text (exts : list extraction) :
  Forall (fun sp => 0 <= span_start sp < span_end sp /\ span_end sp <= len text)
         (omap (SimpleHtml.valid text) exts).
Proof.
  apply Forall_forall. intros sp Hsp.
  apply list_elem_of_omap in Hsp as (e & _ & He).
  unfold SimpleHtml.valid in He.
  destruct (offsets e) as [[s t]|]; [| done].
  destruct ((0 <=? s) && (s <? t) && (t <=? len text)) eqn:Hv; [| done].
  injection He as <-. simpl. lia.
Qed.

Lemma simple_base_of_app l1 l2 :
  join_empty (map SimpleHtml.base_text (l1 ++ l2)) =
  join_empty (map SimpleHtml.base_text l1) +:+ join_empty (map SimpleHtml.base_text l2).
Proof. by rewrite map_app, join_empty_app. Qed.

Lemma simple_loop_non_overlapping text l parts pos i :
  0 <= pos <= len text ->
  join_empty (map SimpleHtml.base_text parts) = slice text 0 pos ->
  Forall (fun sp => 0 <= span_start sp < span_end sp /\ span_end sp <= len text) l ->
  non_overlapping pos l ->
  let st := foldl (SimpleHtml.step text) (parts, pos, i) l in
  0 <= st.1.2 <= len text /\
  join_empty (map SimpleHtml.base_text st.1.1) = slice text 0 st.1.2.
Proof.
  revert parts pos i. induction l as [|sp l IH]; intros parts pos i Hpos Hbase Hall Hno;
    [done |].
  cbv zeta. rewrite foldl_step. unfold SimpleHtml.step at 2.
  apply Forall_cons in Hall as [Hsp Hall]. destruct Hno as [Hle Hno].
  apply IH; [lia | | done | done].
  rewrite simple_base_of_app. simpl. rewrite append_empty_r.
  rewrite <- (slice_app text 0 (span_start sp) (span_end sp)) by lia. f_equal.
  destruct (pos <? span_start sp) eqn:Hlt.
  - rewrite simple_base_of_app, Hbase. simpl. rewrite append_empty_r.
    apply slice_app; lia.
  - replace (span_start sp) with pos by lia. done.
Qed.

(** When the valid spans of the input are pairwise disjoint, the text
    container of [create_simple_html_visualization] covers the source
    text exactly once. *)
Theorem simple_html_covers_text_without_overlap text exts :
  pairwise_disjoint (omap (SimpleHtml.valid text) exts) ->
  join_empty (map SimpleHtml.base_text (SimpleHtml.text_container_parts text exts))
  = text.
Proof.
  intros Hdis. unfold SimpleHtml.text_container_parts, SimpleHtml.run_loop.
  destruct (omap (SimpleHtml.valid text) exts) as [|sp0 l0] eqn:Hom.
  { simpl. apply append_empty_r. }
  rewrite <- Hom in *. clear sp0 l0 Hom.
  set (l := omap (SimpleHtml.valid text) exts) in *.
  pose proof (simple_valid_bounds text exts) as Hb. fold l in Hb.
  pose proof (len_nonneg text) as Hlen.
  assert (Hb' : Forall (fun sp => 0 <= span_start sp < span_end sp /\
                                  span_end sp <= len text) (sorted span_start l)).
  { apply Forall_forall. intros sp Hsp. rewrite sorted_perm in Hsp.
    by eapply Forall_forall in Hb. }
  assert (Hno : non_overlapping 0 (sorted span_start l)).
  { apply ordered_disjoint_non_overlapping;
      [| apply sorted_ordered | by apply pairwise_disjoint_sorted].
    eapply Forall_impl; [exact Hb' |]. simpl. lia. }
  pose proof (simple_loop_non_overlapping text (sorted span_start l) [] 0 0
                ltac:(lia) ltac:(by rewrite slice_prefix by lia) Hb' Hno)
    as [Hpos Hbase].
  destruct (foldl _ _ _) as [[html_parts last_pos] i]. simpl in Hpos, Hbase.
  rewrite slice_prefix in Hbase by lia.
  destruct (last_pos <? len text) eqn:Hlt.
  - rewrite simple_base_of_app, Hbase. simpl.
    rewrite append_empty_r, slice_from_in_range by lia. apply take_drop.
  - rewrite Hbase. replace last_pos with (len text) by lia.
    unfold len. rewrite Nat2Z.id. apply take_all.
Qed.

Lemma simple_loop_keeps_text text l parts pos i :
  (exists m, 0 <= pos <= m /\ m <= len text /\
     list_ascii_of_string (slice text 0 m) `sublist_of`
       list_ascii_of_string (join_empty (map SimpleHtml.base_text parts))) ->
  Forall (fun sp => 0 <= span_start sp < span_end sp /\ span_end sp <= len text) l ->
  let st := foldl (SimpleHtml.step text) (parts, pos, i) l in
  exists m, 0 <= st.1.2 <= m /\ m <= len text /\
     list_ascii_of_string (slice text 0 m) `sublist_of`
       list_ascii_of_string (join_empty (map SimpleHtml.base_text st.1.1)).
Proof.
  revert parts pos i. induction l as [|sp l IH]; intros parts pos i Hinv Hall; [done |].
  cbv zeta. rewrite foldl_step. unfold SimpleHtml.step at 2.
  apply Forall_cons in Hall as [Hsp Hall]. destruct Hinv as (m & Hpos & Hm & Hsub).
  apply IH; [| done].
  set (s := span_start sp) in *. set (t := span_end sp) in *.
  rewrite simple_base_of_app. simpl. rewrite append_empty_r.
  destruct (decide (t <= m)) as [Htm|Htm].
  { exists m. split; [lia |]. split; [lia |].
    rewrite chars_app. apply sublist_inserts_r.
    destruct (pos <? s); [| done].
    rewrite simple_base_of_app, chars_app. by apply sublist_inserts_r. }
  exists t. split; [lia |]. split; [lia |].
  rewrite <- (slice_app text 0 m t) by lia.
  destruct (pos <? s) eqn:Hlt.
  - rewrite simple_base_of_app. simpl. rewrite append_empty_r.
    rewrite !chars_app, <- app_assoc. apply sublist_app; [done |].
    destruct (decide (s <= m)) as [Hsm|Hsm].
    + apply sublist_inserts_l, chars_slice_suffix; lia.
    + rewrite <- (slice_app text m s t) by lia. rewrite chars_app.
      apply sublist_app; [| done]. apply chars_slice_suffix; lia.
  - rewrite !chars_app. apply sublist_app; [done |].
    apply chars_slice_suffix; lia.
Qed.

(** [create_simple_html_visualization] leaves no character of the
    source text out of the text container either, whatever the spans. *)
Theorem simple_html_omits_no_character text exts :
  list_ascii_of_string text `sublist_of`
    list_ascii_of_string
      (join_empty (map SimpleHtml.base_text (SimpleHtml.text_container_parts text exts))).
Proof.
  unfold SimpleHtml.text_container_parts, SimpleHtml.run_loop.
  destruct (omap (SimpleHtml.valid text) exts) as [|sp0 l0] eqn:Hom.
  { simpl. by rewrite append_empty_r. }
  rewrite <- Hom. clear sp0 l0 Hom.
  pose proof (len_nonneg text) as Hlen.
  assert (Hb : Forall (fun sp => 0 <= span_start sp < span_end sp /\
                                 span_end sp <= len text)
                 (sorted span_start (omap (SimpleHtml.valid text) exts))).
  { apply Forall_forall. intros sp Hsp. rewrite sorted_perm in Hsp.
    pose proof (simple_valid_bounds text exts) as H.
    by eapply Forall_forall in H. }
  pose proof (simple_loop_keeps_text text _ [] 0 0
    ltac:(exists 0; split; [lia |]; split; [lia |];
          rewrite slice_prefix by lia; apply sublist_nil_l) Hb)
    as (m & Hpos & Hm & Hsub).
  destruct (foldl _ _ _) as [[html_parts last_pos] i]. simpl in Hpos, Hsub.
  destruct (last_pos <? len text) eqn:Hlt.
  - rewrite simple_base_of_app. simpl. rewrite append_empty_r.
    rewrite slice_from_in_range by lia.
    rewrite <- (take_all text) at 1. rewrite <- (Nat2Z.id (String.length text)).
    fold (len text). rewrite <- slice_prefix by lia.
    rewrite <- (slice_app text 0 m (len text)) by lia.
    rewrite !chars_app. apply sublist_app; [done |].
    rewrite <- (take_all (PyStr.drop (Z.to_nat last_pos) text)).
    assert (Hd : PyStr.drop (Z.to_nat last_pos) text = slice text last_pos (len text)).
    { rewrite slice_in_range by lia.
      rewrite <- (take_all (PyStr.drop (Z.to_nat last_pos) text)) at 1.
      f_equal. clear. unfold len. rewrite Nat2Z.id.
      generalize (Z.to_nat last_pos). intros n. revert n.
      induction text as [|c s IH]; intros [|n]; simpl; done. }
    rewrite take_all, Hd. apply chars_slice_suffix; lia.
  - replace m with (len text) in Hsub by lia.
    rewrite slice_prefix in Hsub by lia.
    unfold len in Hsub. by rewrite Nat2Z.id, take_all in Hsub.
Qed.

(** ** The standalone renderer: highlights, detail cards and legend *)

Lemma simple_loop_targets text l parts pos i :
  0 <= i ->
  omap SimplePage.highlight_target (foldl (SimpleHtml.step text) (parts, pos, i) l).1.1 =
  omap SimplePage.highlight_target parts
  ++ imap (fun k sp => (i + Z.of_nat k, span_ext sp)) l.
Proof.
  revert parts pos i. induction l as [|sp l IH]; intros parts pos i Hi.
  - simpl. by rewrite app_nil_r.
  - rewrite foldl_step. unfold SimpleHtml.step at 2. rewrite IH by lia.
    rewrite omap_app, imap_cons. simpl.
    rewrite Z.add_0_r.
    assert (Himap : imap (fun k sp => (i + 1 + Z.of_nat k, span_ext sp)) l =
                    imap ((fun k sp => (i + Z.of_nat k, span_ext sp)) ∘ S) l).
    { apply imap_ext. intros k sp' _. simpl. f_equal. lia. }
    rewrite Himap.
    destruct (pos <? span_start sp); [rewrite omap_app; simpl; rewrite app_nil_r |];
      by rewrite <- app_assoc.
Qed.

(** Every highlighted fragment of the text container refers to a detail
    card: the numbers and records of the fragments, in order, are the
    numbers and records of the cards.  The cards are numbered from 0
    without gaps, and there is one per valid span. *)
Theorem simple_html_highlights_match_cards text exts :
  omap SimplePage.highlight_target (SimpleHtml.text_container_parts text exts) =
    map (fun c => (SimplePage.card_index c, SimplePage.card_ext c))
        (SimplePage.detail_cards text exts) /\
  (forall k c, SimplePage.detail_cards text exts !! k = Some c ->
               SimplePage.card_index c = Z.of_nat k) /\
  length (SimplePage.detail_cards text exts) =
    length (filter (Spec.valid_span text) exts).
Proof.
  unfold SimplePage.detail_cards. split; [| split].
  - unfold SimpleHtml.text_container_parts, SimpleHtml.run_loop.
    destruct (omap (SimpleHtml.valid text) exts) as [|sp0 l0] eqn:Hom; [done |].
    rewrite <- Hom. clear sp0 l0 Hom.
    pose proof (simple_loop_targets text
                  (sorted span_start (omap (SimpleHtml.valid text) exts)) [] 0 0
                  ltac:(lia)) as Hloop.
    destruct (foldl _ _ _) as [[html_parts last_pos] i]. cbn [fst] in Hloop.
    assert (Hparts : omap SimplePage.highlight_target
              (if last_pos <? len text
               then html_parts ++ [SimpleHtml.Plain (slice_from text last_pos)]
               else html_parts) = omap SimplePage.highlight_target html_parts).
    { destruct (last_pos <? len text); [| done]. by rewrite omap_app, app_nil_r. }
    rewrite Hparts, Hloop. simpl. rewrite fmap_imap. by apply imap_ext.
  - intros k c. rewrite list_lookup_imap.
    destruct (_ !! k) as [sp|]; [| done]. by intros [= <-].
  - rewrite length_imap, sorted_perm, simple_valid_colored_valid.
    rewrite <- (length_fmap span_ext). by rewrite omap_colored_valid_of_valid.
Qed.

(** The legend lists a class exactly when some record of the input,
    valid or not, has this class and the class is in the colour table;
    no class is listed twice. *)
Theorem simple_html_legend_classes exts :
  (forall cls,
     cls ∈ SimplePage.legend_classes exts <->
     (exists e, e ∈ exts /\ ext_type e = cls) /\
     is_Some (SimplePage.legend_item cls)) /\
  NoDup (SimplePage.legend_classes exts).
Proof.
  unfold SimplePage.legend_classes, SimplePage.used_types. split.
  - intros cls. rewrite list_elem_of_filter, elem_of_elements, elem_of_list_to_set.
    rewrite list_elem_of_fmap. unfold SimplePage.legend_item.
    split.
    + intros [Hc (e & -> & He)]. split; [eauto |].
      destruct (SimpleHtml.color_map !! ext_type e); [eauto | by destruct Hc].
    + intros [(e & He & <-) Hc]. split; [| eauto].
      destruct (SimpleHtml.color_map !! ext_type e); [eauto | by destruct Hc].
  - apply NoDup_filter, NoDup_elements.
Qed.

(** ** The API key *)

Lemma truthy_Some o : ApiKey.truthy o = true -> exists s, o = Some s /\ s <> EmptyString.
Proof.
  destruct o as [s|]; [| done]. simpl. intros H. exists s. split; [done |].
  intros ->. done.
Qed.

(** [GrammarAnalyzer.__init__] takes the key it is given when that key
    is a non-empty string, otherwise the one of the environment when
    that one is a non-empty string, and raises [ValueError] otherwise;
    an empty string counts as no key. *)
Theorem analyzer_init_key_precedence key model environ :
  (ApiKey.truthy key = true ->
   ApiKey.init key model environ =
     inr {| ApiKey.api_key := key; ApiKey.model_id := model |}) /\
  (ApiKey.truthy key = false ->
   ApiKey.truthy (environ !! ApiKey.env_var) = true ->
   ApiKey.init key model environ =
     inr {| ApiKey.api_key := environ !! ApiKey.env_var; ApiKey.model_id := model |}) /\
  (ApiKey.truthy key = false ->
   ApiKey.truthy (environ !! ApiKey.env_var) = false ->
   ApiKey.init key model environ = inl ApiKey.ValueError) /\
  (forall a, ApiKey.init key model environ = inr a ->
             exists s, ApiKey.api_key a = Some s /\ s <> EmptyString).
Proof.
  unfold ApiKey.init, ApiKey.py_or. repeat split.
  - intros Hk. by rewrite !Hk.
  - intros Hk He. by rewrite Hk, He.
  - intros Hk He. by rewrite Hk, He.
  - intros a. destruct (ApiKey.truthy key) eqn:Hk.
    + rewrite Hk. simpl. intros [= <-]. by apply truthy_Some.
    + destruct (ApiKey.truthy (environ !! ApiKey.env_var)) eqn:He; [| done].
      simpl. intros [= <-]. by apply truthy_Some.
Qed.

Lemma analyzer_init_key_precedence_witness :
  ApiKey.init (Some EmptyString) "gemini-2.5-flash"
    {[ ApiKey.env_var := "k-123" ]} =
  inr {| ApiKey.api_key := Some "k-123"; ApiKey.model_id := "gemini-2.5-flash" |}.
Proof.
  exact (proj1 (proj2 (analyzer_init_key_precedence (Some EmptyString)
           "gemini-2.5-flash" {[ ApiKey.env_var := "k-123" ]})) eq_refl eq_refl).
Defined.

(** Once [app.py] has settled on a key, the constructor cannot raise:
    the key that passes the check of the app is a non-empty string, and
    the analyzer is built with exactly this key, whatever the
    environment holds.  The environment has precedence over the secrets
    store, and the app stops exactly when neither holds a non-empty
    key. *)
Theorem app_key_check_guards_init environ secrets :
  (forall k model,
     ApiKey.resolve environ secrets = Some k ->
     k <> EmptyString /\
     ApiKey.init (Some k) model environ =
       inr {| ApiKey.api_key := Some k; ApiKey.model_id := model |}) /\
  (ApiKey.truthy (environ !! ApiKey.env_var) = true ->
   ApiKey.resolve environ secrets = environ !! ApiKey.env_var) /\
  (ApiKey.resolve environ secrets = None <->
   ApiKey.truthy (environ !! ApiKey.env_var) = false /\
   ApiKey.truthy (secrets ≫= (.!! ApiKey.env_var)) = false).
Proof.
  unfold ApiKey.resolve. split; [| split].
  - intros k model Hres.
    assert (Hk : ApiKey.truthy (Some k) = true).
    { revert Hres. destruct (ApiKey.truthy (environ !! ApiKey.env_var)) eqn:He;
        cbn [negb].
      - rewrite He. cbn [negb]. intros Hres. by rewrite <- Hres.
      - destruct secrets as [store|].
        + destruct (store !! ApiKey.env_var) as [v|].
          * destruct (ApiKey.truthy (Some v)) eqn:Hv; cbn [negb]; [| done].
            intros Hres. by rewrite <- Hres.
          * by rewrite He.
        + by rewrite He. }
    split.
    + apply truthy_Some in Hk as (s & [= <-] & Hs). done.
    + unfold ApiKey.init, ApiKey.py_or. by rewrite !Hk.
  - intros He. rewrite He. cbn [negb]. by rewrite He.
  - destruct (ApiKey.truthy (environ !! ApiKey.env_var)) eqn:He; cbn [negb].
    + rewrite He. cbn [negb]. split; [| by intros [? _]].
      intros Hnone. rewrite Hnone in He. done.
    + destruct secrets as [store|]; cbn [mbind option_bind].
      * destruct (store !! ApiKey.env_var) as [v|].
        -- destruct (ApiKey.truthy (Some v)) eqn:Hv; cbn [negb]; split; try done.
           by intros [_ ?].
        -- rewrite He. cbn [negb]. done.
      * rewrite He. cbn [negb]. done.
Qed.

Lemma app_key_check_guards_init_witness :
  "s-456" <> EmptyString /\
  ApiKey.init (Some "s-456") "gemini-3-flash-preview" ∅ =
    inr {| ApiKey.api_key := Some "s-456"; ApiKey.model_id := "gemini-3-flash-preview" |}.
Proof.
  exact (proj1 (app_key_check_guards_init ∅ (Some {[ ApiKey.env_var := "s-456" ]}))
           "s-456" "gemini-3-flash-preview" eq_refl).
Defined.

(** ** The sample buttons *)

Lemma len_append s1 s2 : len (s1 +:+ s2) = len s1 + len s2.
Proof.
  unfold len. induction s1 as [|c s1 IH]; [reflexivity |].
  rewrite append_cons.
  change (String.length (String c (s1 +:+ s2))) with (S (String.length (s1 +:+ s2))).
  change (String.length (String c s1)) with (S (String.length s1)). lia.
Qed.

Lemma length_take n s : String.length (PyStr.take n s) = Nat.min n (String.length s).
Proof.
  revert s. induction n as [|n IH]; intros [|c s]; simpl; try done.
  by rewrite IH.
Qed.

(** The label of a sample button is the number of the sample, a full
    stop and a space, followed by the sentence itself when it has at
    most 40 characters, and by its first 40 characters and three dots
    otherwise; so the text after the number never has more than 45
    characters. *)
Theorem sample_label_is_bounded i sentence :
  len (sample_label i sentence) =
    len (of_int i) + 2 + Z.min (len sentence) 40 + (if 40 <? len sentence then 3 else 0) /\
  len (sample_label i sentence) <= len (of_int i) + 45 /\
  Spec.occurs_in (slice sentence 0 40) (sample_label i sentence).
Proof.
  assert (Hslice : len (slice sentence 0 40) = Z.min (len sentence) 40).
  { unfold slice, clamp.
      change (0 <? 0) with false. change (40 <? 0) with false. cbv iota.
    pose proof (len_nonneg sentence).
    rewrite (Z.min_l 0) by lia. rewrite Z.sub_0_r. simpl Z.to_nat at 2.
    rewrite drop_zero. unfold len at 1. rewrite length_take. unfold len. lia. }
  assert (Hlen : len (sample_label i sentence) =
    len (of_int i) + 2 + Z.min (len sentence) 40 + (if 40 <? len sentence then 3 else 0)).
  { unfold sample_label. destruct (40 <? len sentence) eqn:Hlt.
    - rewrite !len_append, Hslice. change (len ". ") with 2. change (len "...") with 3. lia.
    - rewrite !len_append. change (len ". ") with 2. lia. }
  split; [exact Hlen |]. split.
  - rewrite Hlen. destruct (40 <? len sentence); lia.
  - unfold sample_label. destruct (40 <? len sentence) eqn:Hlt.
    + exists (of_int i +:+ ". "), "...". by rewrite !append_assoc.
    + exists (of_int i +:+ ". "), EmptyString.
      rewrite append_empty_r, append_assoc. f_equal. f_equal.
      pose proof (len_nonneg sentence).
      unfold slice, clamp.
      change (0 <? 0) with false. change (40 <? 0) with false. cbv iota.
      rewrite (Z.min_l 0), (Z.min_r 40), Z.sub_0_r by lia. simpl Z.to_nat at 2.
      rewrite drop_zero. unfold len. rewrite Nat2Z.id. symmetry. apply take_all.
Qed.

(** ** Grouping: the groups partition the input *)

(** Every group of [format_result_for_display] is non-empty and holds
    only records of its key, every record of the input is in the group
    of its key, and the keys of the mapping are the keys that occur in
    the input. *)
Theorem groups_are_nonempty_and_exhaustive (extractions : list extraction)
    (group_by : string) :
  let grouped := format_result_for_display extractions group_by in
  (forall key g, grouped !! key = Some g ->
     (exists e g', g = e :: g') /\ Forall (fun e => group_key group_by e = key) g) /\
  (forall e, e ∈ extractions ->
     exists g, grouped !! group_key group_by e = Some g /\ e ∈ g) /\
  dom grouped = list_to_set (map (group_key group_by) extractions).
Proof.
  cbv zeta. split; [| split].
  - intros key g. rewrite format_result_lookup. unfold Spec.group.
    destruct (filter _ extractions) as [|e0 g0] eqn:Hf; [done |].
    intros [= <-]. split; [eauto |]. rewrite <- Hf.
    apply Forall_forall. by intros e [He _]%list_elem_of_filter.
  - intros e He. rewrite format_result_lookup. unfold Spec.group.
    assert (Hin : e ∈ filter (fun e' => group_key group_by e' = group_key group_by e)
                         extractions) by by apply list_elem_of_filter.
    destruct (filter _ extractions) as [|e0 g0]; [by apply elem_of_nil in Hin |].
    eauto.
  - apply set_eq. intros key.
    rewrite elem_of_dom, elem_of_list_to_set, list_elem_of_fmap, format_result_lookup.
    unfold Spec.group. split.
    + intros [g Hg]. destruct (filter _ extractions) as [|e0 g0] eqn:Hf; [done |].
      assert (Hin : e0 ∈ filter (fun e => group_key group_by e = key) extractions)
        by (rewrite Hf; left).
      apply list_elem_of_filter in Hin as [Hk Hin]. eauto.
    + intros (e & -> & He).
      assert (Hin : e ∈ filter (fun e' => group_key group_by e' = group_key group_by e)
                           extractions) by by apply list_elem_of_filter.
      destruct (filter _ extractions) as [|e0 g0]; [by apply elem_of_nil in Hin |].
      eauto.
Qed.

Lemma alter_as_insert {A} (f : A -> A) (k : string) (m : gmap string A) x :
  m !! k = Some x -> alter f k m = <[k := f x]> (delete k m).
Proof.
  intros Hk. apply map_eq. intros j. destruct (decide (k = j)) as [<-|Hne].
  - by rewrite lookup_alter_eq, lookup_insert_eq, Hk.
  - by rewrite lookup_alter_ne, lookup_insert_ne, lookup_delete_ne.
Qed.

Lemma group_step_to_list group_by (grouped : gmap string (list extraction)) e :
  concat (map snd (map_to_list (group_step group_by grouped e)))
  ≡ₚ concat (map snd (map_to_list grouped)) ++ [e].
Proof.
  unfold group_step. set (k := group_key group_by e).
  destruct (grouped !! k) as [g0|] eqn:Hk.
  - rewrite (alter_as_insert _ _ _ g0) by done.
    rewrite map_to_list_insert by apply lookup_delete_eq.
    rewrite <- (map_to_list_delete grouped k g0) by done.
    simpl. rewrite <- !app_assoc. f_equiv. apply Permutation_app_comm.
  - rewrite alter_insert_eq, map_to_list_insert by done.
    simpl. apply Permutation_cons_append.
Qed.

(** The groups of [format_result_for_display] partition the input: put
    one after the other they hold every record of the input exactly as
    often as the input does, so the group sizes add up to the length of
    the input. *)
Theorem groups_partition_input (extractions : list extraction) (group_by : string) :
  concat (map snd (map_to_list (format_result_for_display extractions group_by)))
    ≡ₚ extractions /\
  length (concat (map snd (map_to_list (format_result_for_display extractions group_by))))
    = length extractions.
Proof.
  assert (H : concat (map snd (map_to_list
                (format_result_for_display extractions group_by))) ≡ₚ extractions).
  { unfold format_result_for_display.
    induction extractions as [|e l IH] using rev_ind.
    - simpl. by rewrite map_to_list_empty.
    - rewrite foldl_app. simpl. by rewrite group_step_to_list, IH. }
  split; [exact H | by rewrite H].
Qed.

(** ** Statistics: the per-class counters *)

Lemma count_type_lookup (type_counts : gmap string Z) x k :
  count_type type_counts x !! k =
  if decide (extraction_class x = k)
  then Some (default 0 (type_counts !! k) + 1)
  else type_counts !! k.
Proof.
  unfold count_type. destruct (decide (extraction_class x = k)) as [<-|Hne].
  - by rewrite lookup_insert_eq.
  - by rewrite lookup_insert_ne.
Qed.

Lemma type_counts_lookup (l : list Extraction) k :
  foldl count_type ∅ l !! k =
  match filter (fun x => extraction_class x = k) l with
  | [] => None
  | g => Some (Z.of_nat (length g))
  end.
Proof.
  induction l as [|x l IH] using rev_ind; [done |].
  rewrite foldl_app. simpl. rewrite count_type_lookup, filter_app, IH.
  rewrite filter_cons, filter_nil.
  destruct (decide (extraction_class x = k)) as [Heq|Hne].
  - destruct (filter _ l) as [|x0 g0]; [done |].
    simpl. f_equal. rewrite length_app. simpl. lia.
  - by rewrite app_nil_r.
Qed.

Lemma type_counts_sum (l : list Extraction) :
  map_fold (fun _ c acc => c + acc) 0 (foldl count_type ∅ l) = Z.of_nat (length l).
Proof.
  induction l as [|x l IH] using rev_ind; [simpl; by rewrite map_fold_empty |].
  rewrite foldl_app, length_app, Nat2Z.inj_add, <- IH.
  change (foldl count_type (foldl count_type ∅ l) [x])
    with (count_type (foldl count_type ∅ l) x).
  change (Z.of_nat (length [x])) with 1.
  set (m := foldl count_type ∅ l). unfold count_type.
  set (k := extraction_class x).
  assert (Hcomm : forall (j1 j2 : string) (z1 z2 y : Z),
            z1 + (z2 + y) = z2 + (z1 + y)) by (intros; lia).
  destruct (m !! k) as [c|] eqn:Hk.
  - rewrite <- insert_delete_eq.
    rewrite map_fold_insert_L; [| by intros; apply Hcomm | apply lookup_delete_eq].
    rewrite <- (insert_delete_id m k c) at 2 by done.
    rewrite (map_fold_insert_L _ _ k c);
      [| by intros; apply Hcomm | apply lookup_delete_eq].
    simpl. lia.
  - rewrite map_fold_insert_L; [| by intros; apply Hcomm | done].
    simpl. lia.
Qed.

(** The per-class counters of [get_statistics] hold, for every class,
    the number of extractions of that class, and no entry for a class
    that does not occur; they add up to the total count, which is the
    number of extractions. *)
Theorem statistics_type_counts (result : AnnotatedDocument) (st : statistics) :
  get_statistics result = Ok st ->
  (forall k,
     stat_types st !! k =
     match filter (fun x => extraction_class x = k) (extractions result) with
     | [] => None
     | g => Some (Z.of_nat (length g))
     end) /\
  map_fold (fun _ c acc => c + acc) 0 (stat_types st) = stat_count st /\
  stat_count st = Z.of_nat (length (extractions result)) /\
  stat_length st = len (text result).
Proof.
  unfold get_statistics.
  destruct (coverage _ _) as [cov|e]; [| done]. intros [= <-]. simpl.
  split; [intros k; apply type_counts_lookup |].
  split; [apply type_counts_sum | done].
Qed.

Lemma statistics_type_counts_witness :
  stat_count
    {| stat_count := 5;
       stat_types := foldl count_type ∅ (extractions Examples.combined);
       stat_length := 74; stat_coverage := "97.3%" |} =
  Z.of_nat (length (extractions Examples.combined)).
Proof.
  refine (proj1 (proj2 (proj2 (statistics_type_counts Examples.combined
           {| stat_count := 5;
              stat_types := foldl count_type ∅ (extractions Examples.combined);
              stat_length := 74; stat_coverage := "97.3%" |} _)))).
  vm_compute. reflexivity.
Defined.

Lemma filter_class_format (l : list Extraction) k :
  filter (fun e => group_key "类型" e = k) (map format_extraction l) =
  map format_extraction (filter (fun x => extraction_class x = k) l).
Proof.
  induction l as [|x l IH]; [done |].
  cbn [map]. rewrite !filter_cons, IH.
  change (group_key "类型" (format_extraction x)) with (extraction_class x).
  by destruct (decide (extraction_class x = k)).
Qed.

(** The group sizes that [app.py] shows agree with the statistics: for
    every class, the group of that class in the grouping by class of
    the normalized records has as many records as the per-class counter
    of [get_statistics] says, and a class has a group exactly when it
    has a counter. *)
Theorem group_sizes_match_type_counts (result : AnnotatedDocument) (st : statistics) :
  get_statistics result = Ok st ->
  forall k,
    Z.of_nat (length (default []
      (format_result_for_display (format_extractions result) "类型" !! k)))
    = default 0 (stat_types st !! k) /\
    (is_Some (format_result_for_display (format_extractions result) "类型" !! k)
     <-> is_Some (stat_types st !! k)).
Proof.
  unfold get_statistics.
  destruct (coverage _ _) as [cov|e]; [| done]. intros [= <-] k. simpl.
  rewrite type_counts_lookup, format_result_lookup, format_extractions_map.
  unfold Spec.group. rewrite filter_class_format.
  destruct (filter _ (extractions result)) as [|x0 g0]; simpl.
  - split; [done |]. split; by intros [? ?].
  - rewrite length_map. split; [done |]. split; eauto.
Qed.

Lemma group_sizes_match_type_counts_witness :
  Z.of_nat (length (default []
    (format_result_for_display (format_extractions Examples.combined) "类型" !! "verb")))
  = default 0 (foldl count_type ∅ (extractions Examples.combined) !! "verb").
Proof.
  refine (proj1 (group_sizes_match_type_counts Examples.combined
           {| stat_count := 5;
              stat_types := foldl count_type ∅ (extractions Examples.combined);
              stat_length := 74; stat_coverage := "97.3%" |} _ "verb")).
  vm_compute. reflexivity.
Defined.

(** ** Statistics: coverage of spans that do not overlap *)

Lemma span_sum_perm (l1 l2 : list span) :
  l1 ≡ₚ l2 ->
  foldr Z.add 0 (map (fun sp => span_end sp - span_start sp) l1) =
  foldr Z.add 0 (map (fun sp => span_end sp - span_start sp) l2).
Proof. induction 1; simpl; lia. Qed.

Lemma non_overlapping_sum pos n (l : list span) :
  Forall (fun sp => span_start sp < span_end sp /\ span_end sp <= n) l ->
  non_overlapping pos l -> pos <= n ->
  0 <= foldr Z.add 0 (map (fun sp => span_end sp - span_start sp) l) /\
  pos + foldr Z.add 0 (map (fun sp => span_end sp - span_start sp) l) <= n.
Proof.
  revert pos. induction l as [|sp l IH]; intros pos Hall Hno Hpos; [simpl; lia |].
  apply Forall_cons in Hall as [Hsp Hall]. destruct Hno as [Hle Hno].
  destruct (IH (span_end sp) Hall Hno ltac:(lia)). simpl. lia.
Qed.

Lemma total_chars_of_valid text (l : list Extraction) acc :
  Forall (Spec.valid_span text) (map format_extraction l) ->
  foldl add_chars acc l =
  acc + foldr Z.add 0 (map (fun sp => span_end sp - span_start sp)
                           (omap colored_valid (map format_extraction l))).
Proof.
  revert acc. induction l as [|x l IH]; intros acc Hall; [simpl; lia |].
  cbn [map] in Hall. apply Forall_cons in Hall as [Hx Hall].
  rewrite foldl_step, IH by done. cbn [map omap list_omap].
  unfold Spec.valid_span, format_extraction in Hx. simpl in Hx.
  unfold add_chars, colored_valid, offsets, format_extraction. simpl.
  destruct (char_interval x) as [ci|]; [| done].
  apply andb_prop_elim in Hx as [Hx _]. apply Is_true_true in Hx.
  rewrite Hx. simpl. lia.
Qed.

(** When every span is valid and the spans are pairwise disjoint, the
    number of characters that [get_statistics] counts as covered lies
    between 0 and the length of the text: the coverage is at most 100
    per cent. *)
Theorem coverage_sum_bounded_without_overlap (result : AnnotatedDocument) :
  Forall (Spec.valid_span (text result)) (format_extractions result) ->
  pairwise_disjoint (omap colored_valid (format_extractions result)) ->
  0 <= total_chars (extractions result) <= len (text result).
Proof.
  rewrite format_extractions_map. intros Hvalid Hdis.
  unfold total_chars. rewrite (total_chars_of_valid (text result)) by done.
  set (l := omap colored_valid (map format_extraction (extractions result))) in *.
  rewrite (span_sum_perm l (sorted span_start l)) by (symmetry; apply sorted_perm).
  assert (Hb : Forall (fun sp => 0 <= span_start sp < span_end sp /\
                                 span_end sp <= len (text result)) (sorted span_start l)).
  { apply Forall_forall. intros sp Hsp. rewrite sorted_perm in Hsp.
    apply list_elem_of_omap in Hsp as (e & He & Hcv).
    eapply Forall_forall in Hvalid; [| exact He].
    pose proof (colored_valid_spec (text result) e) as Hspec. rewrite Hcv in Hspec.
    destruct Hspec as (_ & Hoff & _).
    unfold Spec.valid_span in Hvalid. unfold offsets in Hoff.
    destruct (pos_start (ext_pos e)) as [s|], (pos_end (ext_pos e)) as [t|]; try done.
    injection Hoff as <- <-. apply andb_prop_elim in Hvalid as [Hv Ht].
    apply andb_prop_elim in Hv as [H0 Hst].
    apply Is_true_true in H0, Hst, Ht. lia. }
  pose proof (len_nonneg (text result)) as Hlen.
  destruct (non_overlapping_sum 0 (len (text result)) (sorted span_start l))
    as [H1 H2]; [| | lia | lia].
  - eapply Forall_impl; [exact Hb |]. simpl. lia.
  - apply ordered_disjoint_non_overlapping;
      [| apply sorted_ordered | by apply pairwise_disjoint_sorted].
    eapply Forall_impl; [exact Hb |]. simpl. lia.
Qed.

Lemma coverage_sum_bounded_without_overlap_witness :
  0 <= total_chars
         [ {| extraction_class := "subject"; extraction_text := "The quick brown fox";
              attributes := [];
              char_interval := Some {| start_pos := 0; end_pos := 19 |} |};
           {| extraction_class := "verb"; extraction_text := "jumps";
              attributes := [];
              char_interval := Some {| start_pos := 20; end_pos := 25 |} |} ]
    <= len "The quick brown fox jumps over the lazy dog.".
Proof.
  refine (coverage_sum_bounded_without_overlap
    {| text := "The quick brown fox jumps over the lazy dog.";
       extractions :=
         [ {| extraction_class := "subject"; extraction_text := "The quick brown fox";
              attributes := [];
              char_interval := Some {| start_pos := 0; end_pos := 19 |} |};
           {| extraction_class := "verb"; extraction_text := "jumps";
              attributes := [];
              char_interval := Some {| start_pos := 20; end_pos := 25 |} |} ] |} _ _).
  - repeat constructor.
  - cbn. split; [| split; [constructor | exact I]].
    constructor; [| constructor]. left. cbn. lia.
Defined.

(** ** Statistics: the ways to fail *)

(** [get_statistics] raises [TypeError] when an extraction carries an
    interval of which an offset is [None], whatever the text.  When all
    the intervals have integer offsets, it returns for an empty text,
    without dividing by zero, and the only exception it raises is
    [OverflowError], for a text that is not empty when the sum of the
    interval lengths or the length of the text reaches [2^1000]. *)
Theorem statistics_failure_modes (result : Nullable.AnnotatedDocument) :
  let extractions := Nullable.extractions result in
  let n := len (Nullable.text result) in
  (forallb Nullable.integer_offsets extractions = false ->
   Nullable.get_statistics result = inl Nullable.TypeError) /\
  (forallb Nullable.integer_offsets extractions = true ->
   (n = 0 -> exists st, Nullable.get_statistics result = inr st) /\
   (forall err,
      Nullable.get_statistics result = inl err ->
      err = Nullable.ArithmeticError OverflowError /\ 0 < n /\
      (2 ^ 1000 <= Z.abs (Nullable.interval_chars extractions) \/ 2 ^ 1000 <= n))).
Proof.
  cbv zeta. unfold Nullable.get_statistics. rewrite nullable_total_chars.
  split; [by intros -> |]. intros ->. split.
  - intros Hn. unfold coverage. rewrite Hn. change (0 <? 0) with false.
    cbv iota. by eexists.
  - intros err.
    destruct (coverage _ _) as [cov|e'] eqn:Hcov; [done |]. intros [= <-].
    assert (Hpos : 0 < len (Nullable.text result)).
    { unfold coverage in Hcov.
      destruct (0 <? len (Nullable.text result)) eqn:H; [lia | done]. }
    split; [| split; [done |]].
    + f_equal. unfold coverage, int_truediv in Hcov.
      replace (0 <? len (Nullable.text result)) with true in Hcov by lia.
      replace (len (Nullable.text result) =? 0) with false in Hcov by lia.
      destruct (PyFloat.round _ _ _); congruence.
    + destruct (decide (2 ^ 1000 <=
                  Z.abs (Nullable.interval_chars (Nullable.extractions result))));
        [by left |].
      destruct (decide (2 ^ 1000 <= len (Nullable.text result))); [by right |].
      destruct (coverage_nonzero_text
                  (Nullable.interval_chars (Nullable.extractions result))
                  (Nullable.text result))
        as (tenths & Hok & _); [lia | lia | lia |]. congruence.
Qed.

Lemma statistics_failure_modes_witness :
  Nullable.get_statistics Examples.span_without_offsets = inl Nullable.TypeError /\
  exists st, Nullable.get_statistics
               {| Nullable.text := "";
                  Nullable.extractions := Nullable.extractions Examples.half_covered |}
             = inr st.
Proof.
  split.
  - apply (proj1 (statistics_failure_modes Examples.span_without_offsets) eq_refl).
  - apply (proj1 (proj2 (statistics_failure_modes
             {| Nullable.text := "";
                Nullable.extractions := Nullable.extractions Examples.half_covered |})
             eq_refl) eq_refl).
Defined.

(** ** The pipeline of the application *)

Lemma valid_span_format text (x : Extraction) :
  Spec.valid_span text (format_extraction x) = interval_in_text text x.
Proof.
  unfold Spec.valid_span, interval_in_text, format_extraction. simpl.
  by destruct (char_interval x).
Qed.

(** In the pipeline of [app.py], which renders the normalized records
    of a document, the highlighted fragments are those of the
    extractions whose interval is present and satisfies
    [0 <= start < end <= len(text)], each once; an extraction without
    interval or with an interval outside the text is shown as plain
    text only. *)
Theorem pipeline_highlights_extractions_in_text text (result : AnnotatedDocument)
    color_map :
  omap highlighted (colored_parts text (format_extractions result) color_map)
  ≡ₚ map format_extraction (filter (interval_in_text text) (extractions result)).
Proof.
  rewrite colored_highlighted_sorted, sorted_perm, omap_colored_valid_of_valid.
  rewrite format_extractions_map.
  induction (extractions result) as [|x l IH]; [done |].
  cbn [map]. rewrite !filter_cons, valid_span_format.
  destruct (decide (interval_in_text text x)); [by constructor | done].
Qed.

(** ** The inline renderer: colours and the span that covers the text *)

Lemma colored_loop_colors text color_map l parts pos :
  Forall (fun f => forall e color body tt,
            f = Highlight e color body tt ->
            color = default "#CCCCCC" (color_map !! ext_type e)) parts ->
  Forall (fun f => forall e color body tt,
            f = Highlight e color body tt ->
            color = default "#CCCCCC" (color_map !! ext_type e))
    (foldl (colored_step text color_map) (parts, pos) l).1.
Proof.
  revert parts pos. induction l as [|sp l IH]; intros parts pos Hparts; [done |].
  rewrite foldl_step. destruct (renderable text sp) eqn:Hr.
  - rewrite colored_step_emit by done. apply IH.
    apply Forall_app. split.
    + destruct (pos <? span_start sp); [| done].
      apply Forall_app. split; [done |]. by apply Forall_singleton.
    + apply Forall_singleton. by intros e color body tt [= <- <- _ _].
  - rewrite colored_step_skip by done. by apply IH.
Qed.

(** The colour of a highlighted fragment of [create_colored_text]
    depends on the class of its record alone: it is the entry of the
    class in the colour table in use, and [#CCCCCC] for a class that
    the table does not have.  A table passed by the caller replaces the
    built-in one, it is not merged with it. *)
Theorem colored_text_colour_by_class text exts color_map :
  (forall e color body tt,
     Highlight e color body tt ∈ colored_parts text exts color_map ->
     color = default "#CCCCCC" (default default_color_map color_map !! ext_type e)) /\
  (forall e1 c1 b1 t1 e2 c2 b2 t2,
     Highlight e1 c1 b1 t1 ∈ colored_parts text exts color_map ->
     Highlight e2 c2 b2 t2 ∈ colored_parts text exts color_map ->
     ext_type e1 = ext_type e2 -> c1 = c2).
Proof.
  assert (H : forall e color body tt,
     Highlight e color body tt ∈ colored_parts text exts color_map ->
     color = default "#CCCCCC" (default default_color_map color_map !! ext_type e)).
  { intros e color body tt. unfold colored_parts.
    destruct (omap colored_valid exts) as [|sp0 l0].
    { by intros ?%list_elem_of_singleton. }
    pose proof (colored_loop_colors text (default default_color_map color_map)
                  (sorted span_start (sp0 :: l0)) [] 0) as Hloop.
    destruct (foldl _ _ _) as [html_parts last_pos]. cbn [fst] in Hloop.
    intros Hin.
    assert (Hin' : Highlight e color body tt ∈ html_parts).
    { destruct (last_pos <? len text); [| done].
      apply elem_of_app in Hin as [Hin|Hin]; [done |].
      by apply list_elem_of_singleton in Hin. }
    eapply Forall_forall in Hloop; [| done | exact Hin'].
    by eapply Hloop. }
  split; [exact H |].
  intros e1 c1 b1 t1 e2 c2 b2 t2 H1 H2 Heq.
  rewrite (H _ _ _ _ H1), (H _ _ _ _ H2). by rewrite Heq.
Qed.

Lemma colored_text_colour_by_class_witness :
  "#4ECDC4" = "#4ECDC4".
Proof.
  refine (proj2 (colored_text_colour_by_class Examples.combined_text
                   Examples.looked_up_twice None)
            (Examples.mk "verb" 21 30) "#4ECDC4" "looked up"
            (colored_tooltip_html (Examples.mk "verb" 21 30))
            (Examples.mk "verb" 21 30) "#4ECDC4" "looked up"
            (colored_tooltip_html (Examples.mk "verb" 21 30)) _ _ eq_refl).
  - vm_compute. apply list_elem_of_In. vm_compute. right. left. reflexivity.
  - vm_compute. apply list_elem_of_In. vm_compute. right. left. reflexivity.
Defined.

Lemma slice_whole s : slice s 0 (len s) = s.
Proof.
  pose proof (len_nonneg s). rewrite slice_prefix by lia.
  unfold len. rewrite Nat2Z.id. apply take_all.
Qed.

(** A single span that covers the whole of a non-empty text gives one
    highlighted fragment with the whole text as its body, and no plain
    fragment. *)
Theorem colored_text_span_covering_text text (e : extraction) color_map :
  0 < len text ->
  ext_pos e = {| pos_start := Some 0; pos_end := Some (len text) |} ->
  colored_parts text [e] color_map =
    [ Highlight e
        (default "#CCCCCC" (default default_color_map color_map !! ext_type e))
        text (colored_tooltip_html e) ].
Proof.
  intros Hlen Hpos. unfold colored_parts. cbn [omap list_omap].
  unfold colored_valid, offsets. rewrite Hpos. cbn [pos_start pos_end].
  replace ((0 <=? 0) && (0 <? len text)) with true by (simpl; lia).
  cbn [sorted foldr insert_by foldl].
  rewrite colored_step_emit
    by (unfold renderable; cbn [span_start span_end];
        replace (len text <=? 0) with false by lia;
        replace (len text <? len text) with false by lia; done).
  cbn [span_start span_end span_ext].
  change (0 <? 0) with false. cbv iota. rewrite Z.max_r by lia.
  replace (len text <? len text) with false by lia.
  by rewrite slice_whole.
Qed.

Lemma colored_text_span_covering_text_witness :
  colored_parts "jumps" [Examples.mk "verb" 0 5] None =
    [ Highlight (Examples.mk "verb" 0 5) "#4ECDC4" "jumps"
        (colored_tooltip_html (Examples.mk "verb" 0 5)) ].
Proof.
  exact (colored_text_span_covering_text "jumps" (Examples.mk "verb" 0 5) None
           eq_refl eq_refl).
Defined.

Lemma colored_text_covers_text_without_overlap_witness :
  base_of (colored_parts "The quick brown fox jumps over the lazy dog."
             [Examples.mk "subject" 0 19; Examples.mk "verb" 20 25;
              Examples.mk "adverbial" 26 43] None)
  = "The quick brown fox jumps over the lazy dog.".
Proof.
  refine (colored_text_covers_text_without_overlap
            "The quick brown fox jumps over the lazy dog."
            [Examples.mk "subject" 0 19; Examples.mk "verb" 20 25;
             Examples.mk "adverbial" 26 43] None _).
  cbn.
  split; [constructor; [left; cbn; lia | constructor; [left; cbn; lia | constructor]] |].
  split; [constructor; [left; cbn; lia | constructor] |].
  split; [constructor | exact I].
Defined.

Lemma simple_html_covers_text_without_overlap_witness :
  join_empty (map SimpleHtml.base_text
    (SimpleHtml.text_container_parts "The quick brown fox jumps over the lazy dog."
       [Examples.mk "subject" 0 19; Examples.mk "verb" 20 25;
        Examples.mk "adverbial" 26 43]))
  = "The quick brown fox jumps over the lazy dog.".
Proof.
  refine (simple_html_covers_text_without_overlap
            "The quick brown fox jumps over the lazy dog."
            [Examples.mk "subject" 0 19; Examples.mk "verb" 20 25;
             Examples.mk "adverbial" 26 43] _).
  cbn.
  split; [constructor; [left; cbn; lia | constructor; [left; cbn; lia | constructor]] |].
  split; [constructor; [left; cbn; lia | constructor] |].
  split; [constructor | exact I].
Defined.
